(** * minpy/nn/solver.py: the SGD [Solver]

    A shallow embedding of the training controller of [minpy.nn.solver]:
    construction and [_reset], [init], [_step], [check_accuracy] and
    [train], followed by the properties of the training loop.

    Conventions of the embedding.
    - Python floats are exact rationals ([Qc]): rounding is not modelled.
    - Arrays are objects of a store ([list tensor], an object's address is
      its index); [model.params] and [best_params] hold addresses, so that
      an update rule writing into its argument is visible through every
      dict that refers to the same array.
    - A Python exception is a [Raise]; the partial state left behind by an
      aborted call is not observed.
    - The collaborators that solver.py imports or is handed (the
      model, the autodiff entry point [core.grad_and_loss], the modules
      [optim] and [init], the data iterators) are parameters. They are
      functions: what a collaborator would raise is not modelled, and a
      result [Ok] says that the solver's own code raises nothing,
      provided its calls to the collaborators return. *)

From stdpp Require Import base numbers gmap strings list.
From Stdlib Require Import QArith Qcanon.

Local Open Scope Qc_scope.

(** ** Exceptions and the error monad *)

(** The three [ValueError]s of [__init__] (lines 101, 106, 111), told apart
    by their message, and the one [np.argmax] raises on an empty row. *)
Inductive value_error :=
  | Unrecognized_arguments (extra : list string)
  | Invalid_update_rule (name : string)
  | Invalid_init_rule (name : string)
  | Argmax_of_empty_sequence.

Inductive exn :=
  | ValueError (e : value_error)
  | KeyError (k : string)
  | IndexError
  | TypeError (k : string)
  | ZeroDivisionError.

Inductive result (A : Type) :=
  | Ok (a : A)
  | Raise (e : exn).
Arguments Ok {A} a.
Arguments Raise {A} e.

#[global] Instance value_error_eq_dec : EqDecision value_error.
Proof. solve_decision. Defined.
#[global] Instance exn_eq_dec : EqDecision exn.
Proof. solve_decision. Defined.
#[global] Instance result_eq_dec {A : Type} `{EqDecision A} : EqDecision (result A).
Proof. solve_decision. Defined.

#[global] Instance result_ret : MRet result := @Ok.
#[global] Instance result_bind : MBind result := λ A B f m,
  match m with Ok a => f a | Raise e => Raise e end.
#[global] Instance result_fmap : FMap result := λ A B f m,
  match m with Ok a => Ok (f a) | Raise e => Raise e end.

(** A test on the result of a call, false if the call raises. *)
Definition holds {A : Type} (r : result A) (P : A → bool) : bool :=
  match r with Ok a => P a | Raise _ => false end.

(** A [for] loop whose body may raise. *)
Fixpoint foldM {A B : Type} (f : A → B → result A) (a : A) (l : list B) : result A :=
  match l with
  | [] => Ok a
  | b :: l => a' ← f a b; foldM f a' l
  end.

(** [d[k]] on a dict. *)
Definition getitem {V : Type} (k : string) (d : gmap string V) : result V :=
  match d !! k with
  | Some v => Ok v
  | None => Raise (KeyError k)
  end.

(** ** Values *)

(** Hyper-parameter dicts such as [optim_config]: names to scalars. *)
Abbreviation config := (gmap string Qc).

(** Line 260 on a config that has a learning rate. *)
Definition decayed (d : Qc) (c : config) : config := alter (λ lr, lr * d) "learning_rate" c.

(** Addresses of array objects, and the store that holds them. *)
Abbreviation loc := nat.

(** A value passed as a keyword argument to [Solver(...)]. *)
Inductive kwval :=
  | KStr (s : string)
  | KDict (d : config)
  | KFloat (q : Qc)
  | KInt (n : nat)
  | KBool (b : bool).

(** What [train] prints (lines 222, 227 and 247). *)
Inductive event :=
  | print_epoch (epoch : nat)
  | print_iteration (t1 num_iterations : nat) (loss : Qc)
  | print_epoch_summary (epoch num_epochs : nat) (train_acc val_acc : Qc).

(** [self.best_params] is a dict of its own until line 263 makes
    [model.params] and [best_params] one and the same dict object. *)
Inductive dict_ref :=
  | own_dict (d : gmap string loc)
  | model_dict.

#[global] Instance dict_ref_eq_dec : EqDecision dict_ref.
Proof. solve_decision. Defined.
#[global] Instance event_eq_dec : EqDecision event.
Proof. solve_decision. Defined.

(** ** Data iterators *)

(** A batch: [batch.data[0]] and [batch.label[0]]. *)
Record DataBatch (X : Type) := mkBatch {
  data : X;
  label : list nat
}.
Arguments mkBatch {X} data label.
Arguments data {X} d.
Arguments label {X} d.

(** The iterator protocol the solver relies on. [I] is the state of an
    iterator object; [for_each it] is a complete [for each_batch in it]
    loop: the batches it yields and the iterator it leaves behind. *)
Class DataIter (I X : Type) := {
  num_data : I → nat;
  dataiter_batch_size : I → nat;
  getnumiterations : I → nat;
  getsubiter : I → nat → I;
  reset : I → I;
  for_each : I → list (DataBatch X) * I
}.

(** Modelled from the spec: the contract of the Data Iterator (section 6),
    whose class is not in solver.py: [numIterations] is the number of
    batches of a full pass, a pass over a restarted iterator is a full
    pass, and no batch is longer than the configured batch size. *)
Class DataIterSpec (I X : Type) `{DataIter I X} := {
  full_pass it : length (for_each (reset it)).1 = getnumiterations it;
  getnumiterations_reset it : getnumiterations (reset it) = getnumiterations it;
  getnumiterations_for_each it : getnumiterations (for_each it).2 = getnumiterations it;
  batch_length it b : b ∈ (for_each it).1 → (length (label b) ≤ dataiter_batch_size it)%nat
}.

(** ** numpy *)

(** [np.argmax] of one row: the first index of the maximum. *)
Fixpoint argmax_from (best : Qc) (ibest i : nat) (row : list Qc) : nat :=
  match row with
  | [] => ibest
  | x :: row =>
      if bool_decide (best < x) then argmax_from x i (S i) row
      else argmax_from best ibest (S i) row
  end.

Definition argmax (row : list Qc) : result nat :=
  match row with
  | [] => Raise (ValueError Argmax_of_empty_sequence)
  | x :: row => Ok (argmax_from x 0%nat 1%nat row)
  end.

(** [np.sum(a == b)] for two arrays of class indices. The comparison is
    elementwise over arrays of one length, and an array of length one is
    broadcast against the other. Over lengths that do not broadcast the
    comparison as a whole is [False] under the numpy of this Python 2
    module, which only warns (later versions raise), and its sum is [0]. *)
Definition count_equal (a b : list nat) : nat :=
  if bool_decide (length a = length b) then
    length (filter (λ xy, xy.1 = xy.2) (zip a b))
  else
    match a, b with
    | _, [y] => length (filter (λ x, x = y) a)
    | [x], _ => length (filter (λ y, x = y) b)
    | _, _ => 0%nat
    end.

(** [np.sum(np.argmax(predict, axis=1) == label)]. *)
Definition count_correct (predict : list (list Qc)) (label : list nat) : result nat :=
  classes ← mapM argmax predict;
  Ok (count_equal classes label).

(** [c] is the first index at which [row] is maximal. *)
Definition first_maximum (row : list Qc) (c : nat) : Prop :=
  ∃ m, row !! c = Some m ∧ (∀ x, x ∈ row → x ≤ m) ∧
       ∀ j x, (j < c)%nat → row !! j = Some x → x < m.

#[global] Instance first_maximum_dec row c : Decision (first_maximum row c).
Proof.
  destruct (row !! c) as [m|] eqn:Hm.
  - destruct (decide (Forall (λ x, x ≤ m) row ∧ Forall (λ x, x < m) (take c row)))
      as [[Hle Hlt]|Hno].
    + left. exists m. split_and!; [done | by apply Forall_forall |].
      intros j x Hj Hx. apply (Forall_lookup_1 (λ x, x < m) (take c row) j x Hlt).
      by rewrite lookup_take_lt.
    + right. intros (m' & Hm' & Hle & Hlt). simplify_eq. apply Hno. split.
      * by apply Forall_forall.
      * apply Forall_lookup. intros j x [Hx Hj]%lookup_take_Some. by eapply Hlt.
  - right. intros (m & Hm' & _). congruence.
Defined.

(** The examples of a batch, given with one row of scores each, whose
    label is the first index at which their row is maximal. *)
Definition correct_predictions (predict : list (list Qc)) (label : list nat) : nat :=
  length (filter (λ ry, first_maximum ry.1 ry.2) (zip predict label)).

(** [float(acc_count) / num_samples]. *)
Definition float_div (acc_count num_samples : nat) : result Qc :=
  if bool_decide (num_samples = 0%nat) then Raise ZeroDivisionError
  else Ok (Q2Qc (Z.of_nat acc_count # Pos.of_nat num_samples)).

(** ** The collaborators *)

(** An update rule of [optim]: [update_rule(w, dw, config)] is given the
    array object [w]; it may write into the store and returns the address
    of [next_w] (that of [w] itself for a rule that works in place) and
    [next_config], the dict that becomes the parameter's own config. *)
Definition update_fn (tensor : Type) : Type :=
  list tensor → loc → tensor → config → list tensor * loc * config.

(** An update rule that writes into no array of the store it is given,
    and returns an array of the store it leaves. *)
Definition allocating {tensor : Type} (f : update_fn tensor) : Prop :=
  ∀ h w dw c, h `prefix_of` (f h w dw c).1.1 ∧
              ((f h w dw c).1.2 < length (f h w dw c).1.1)%nat.

(** An initializer of [init]: [init_rule(shape, config)] returns an
    array object, given here by the store the call leaves and the address
    of the array in it. Nothing in solver.py requires the array to be a
    new one. *)
Definition init_fn (tensor shape : Type) : Type :=
  list tensor → shape → config → list tensor * loc.

(** An initializer that creates the array it returns and writes into no
    array of the store it is given. *)
Definition creating {tensor shape : Type} (f : init_fn tensor shape) : Prop :=
  ∀ h sh c, h `prefix_of` (f h sh c).1 ∧
            (length h ≤ (f h sh c).2 < length (f h sh c).1)%nat.

(** What the solver calls outside solver.py. [tensor] is the value of an
    array, [X] the data stream of a batch and [shape] what
    [param_configs[name]['shape']] holds.
    - [forward] and [loss]: [model.forward], reading the current values
      of [model.params], and [model.loss];
    - [grad_and_loss]: [core.grad_and_loss(loss_func, argnum)] applied to
      the parameter arrays: one gradient per array and the loss;
    - [optim] and [init_module]: [hasattr]/[getattr] on the modules
      [optim] and [init]. *)
Class Env (tensor X shape : Type) := {
  forward : gmap string tensor → X → list (list Qc);
  loss : list (list Qc) → list nat → Qc;
  grad_and_loss : (list tensor → Qc) → list tensor → list tensor * Qc;
  optim : string → option (update_fn tensor);
  init_module : string → option (init_fn tensor shape)
}.

(** ** The solver *)

Section solver.

Context {tensor X shape I : Type} `{DataIter I X} `{Env tensor X shape}.

(** The model object: [model.params] and [model.param_configs]. *)
Record Model := mkModel {
  params : gmap string loc;
  param_configs : gmap string shape
}.

(** The solver together with the objects it shares with its caller: the
    store of arrays, the model, the two iterators (two distinct objects)
    and what was printed. *)
Record Solver := mkSolver {
  store : list tensor;
  model : Model;
  train_dataiter : I;
  test_dataiter : I;
  init_rule : init_fn tensor shape;
  init_config : config;
  update_rule : update_fn tensor;
  optim_config : config;
  lr_decay : Qc;
  batch_size : nat;
  num_epochs : nat;
  print_every : nat;
  verbose : bool;
  epoch : nat;
  best_val_acc : Qc;
  best_params : dict_ref;
  loss_history : list Qc;
  train_acc_history : list Qc;
  val_acc_history : list Qc;
  optim_configs : gmap string config;
  init_configs : gmap string config;
  stdout : list event
}.

(** Assignments to one attribute. *)
Definition set_store (v : list tensor) (s : Solver) : Solver :=
  mkSolver v (model s) (train_dataiter s) (test_dataiter s) (init_rule s) (init_config s)
    (update_rule s) (optim_config s) (lr_decay s) (batch_size s) (num_epochs s) (print_every s)
    (verbose s) (epoch s) (best_val_acc s) (best_params s) (loss_history s) (train_acc_history s)
    (val_acc_history s) (optim_configs s) (init_configs s) (stdout s).

Definition set_params (v : gmap string loc) (s : Solver) : Solver :=
  mkSolver (store s) (mkModel v (param_configs (model s))) (train_dataiter s) (test_dataiter s)
    (init_rule s) (init_config s)
    (update_rule s) (optim_config s) (lr_decay s) (batch_size s) (num_epochs s) (print_every s)
    (verbose s) (epoch s) (best_val_acc s) (best_params s) (loss_history s) (train_acc_history s)
    (val_acc_history s) (optim_configs s) (init_configs s) (stdout s).

Definition set_train_dataiter (v : I) (s : Solver) : Solver :=
  mkSolver (store s) (model s) v (test_dataiter s) (init_rule s) (init_config s)
    (update_rule s) (optim_config s) (lr_decay s) (batch_size s) (num_epochs s) (print_every s)
    (verbose s) (epoch s) (best_val_acc s) (best_params s) (loss_history s) (train_acc_history s)
    (val_acc_history s) (optim_configs s) (init_configs s) (stdout s).

Definition set_test_dataiter (v : I) (s : Solver) : Solver :=
  mkSolver (store s) (model s) (train_dataiter s) v (init_rule s) (init_config s)
    (update_rule s) (optim_config s) (lr_decay s) (batch_size s) (num_epochs s) (print_every s)
    (verbose s) (epoch s) (best_val_acc s) (best_params s) (loss_history s) (train_acc_history s)
    (val_acc_history s) (optim_configs s) (init_configs s) (stdout s).

Definition set_best_val_acc (v : Qc) (s : Solver) : Solver :=
  mkSolver (store s) (model s) (train_dataiter s) (test_dataiter s) (init_rule s) (init_config s)
    (update_rule s) (optim_config s) (lr_decay s) (batch_size s) (num_epochs s) (print_every s)
    (verbose s) (epoch s) v (best_params s) (loss_history s) (train_acc_history s)
    (val_acc_history s) (optim_configs s) (init_configs s) (stdout s).

Definition set_best_params (v : dict_ref) (s : Solver) : Solver :=
  mkSolver (store s) (model s) (train_dataiter s) (test_dataiter s) (init_rule s) (init_config s)
    (update_rule s) (optim_config s) (lr_decay s) (batch_size s) (num_epochs s) (print_every s)
    (verbose s) (epoch s) (best_val_acc s) v (loss_history s) (train_acc_history s)
    (val_acc_history s) (optim_configs s) (init_configs s) (stdout s).

Definition set_loss_history (v : list Qc) (s : Solver) : Solver :=
  mkSolver (store s) (model s) (train_dataiter s) (test_dataiter s) (init_rule s) (init_config s)
    (update_rule s) (optim_config s) (lr_decay s) (batch_size s) (num_epochs s) (print_every s)
    (verbose s) (epoch s) (best_val_acc s) (best_params s) v (train_acc_history s)
    (val_acc_history s) (optim_configs s) (init_configs s) (stdout s).

Definition set_train_acc_history (v : list Qc) (s : Solver) : Solver :=
  mkSolver (store s) (model s) (train_dataiter s) (test_dataiter s) (init_rule s) (init_config s)
    (update_rule s) (optim_config s) (lr_decay s) (batch_size s) (num_epochs s) (print_every s)
    (verbose s) (epoch s) (best_val_acc s) (best_params s) (loss_history s) v
    (val_acc_history s) (optim_configs s) (init_configs s) (stdout s).

Definition set_val_acc_history (v : list Qc) (s : Solver) : Solver :=
  mkSolver (store s) (model s) (train_dataiter s) (test_dataiter s) (init_rule s) (init_config s)
    (update_rule s) (optim_config s) (lr_decay s) (batch_size s) (num_epochs s) (print_every s)
    (verbose s) (epoch s) (best_val_acc s) (best_params s) (loss_history s) (train_acc_history s)
    v (optim_configs s) (init_configs s) (stdout s).

Definition set_optim_configs (v : gmap string config) (s : Solver) : Solver :=
  mkSolver (store s) (model s) (train_dataiter s) (test_dataiter s) (init_rule s) (init_config s)
    (update_rule s) (optim_config s) (lr_decay s) (batch_size s) (num_epochs s) (print_every s)
    (verbose s) (epoch s) (best_val_acc s) (best_params s) (loss_history s) (train_acc_history s)
    (val_acc_history s) v (init_configs s) (stdout s).

(** [print]. *)
Definition print (e : event) (s : Solver) : Solver :=
  mkSolver (store s) (model s) (train_dataiter s) (test_dataiter s) (init_rule s) (init_config s)
    (update_rule s) (optim_config s) (lr_decay s) (batch_size s) (num_epochs s) (print_every s)
    (verbose s) (epoch s) (best_val_acc s) (best_params s) (loss_history s) (train_acc_history s)
    (val_acc_history s) (optim_configs s) (init_configs s) (stdout s ++ [e]).

(** The dict [self.best_params] refers to. *)
Definition best_params_dict (s : Solver) : gmap string loc :=
  match best_params s with
  | own_dict d => d
  | model_dict => params (model s)
  end.

(** The values a dict of arrays holds in a store. *)
Definition values_in (h : list tensor) (d : gmap string loc) : gmap string tensor :=
  omap (λ l, h !! l) d.

(** The model's parameter mapping, by value. *)
Definition params_values (s : Solver) : gmap string tensor :=
  values_in (store s) (params (model s)).

(** *** Construction: [__init__] and [_reset] *)

(** [kwargs.pop(k, default)]. *)
Definition pop (k : string) (default_value : kwval) (kwargs : gmap string kwval) :
    kwval * gmap string kwval :=
  (default default_value (kwargs !! k), delete k kwargs).

(** The options are typed in the embedding. A keyword value of another
    Python type is a [TypeError]; it is raised after the rules have been
    resolved, where Python would raise on the value's first use. *)
Definition as_str (k : string) (v : kwval) : result string :=
  match v with KStr x => Ok x | _ => Raise (TypeError k) end.

Definition as_dict (k : string) (v : kwval) : result config :=
  match v with KDict x => Ok x | _ => Raise (TypeError k) end.

Definition as_float (k : string) (v : kwval) : result Qc :=
  match v with
  | KFloat x => Ok x
  | KInt n => Ok (Q2Qc (inject_Z (Z.of_nat n)))
  | _ => Raise (TypeError k)
  end.

Definition as_int (k : string) (v : kwval) : result nat :=
  match v with KInt x => Ok x | _ => Raise (TypeError k) end.

Definition as_bool (k : string) (v : kwval) : result bool :=
  match v with KBool x => Ok x | _ => Raise (TypeError k) end.

(** Lines 116-142. *)
Definition _reset (s : Solver) : Solver :=
  {| store := store s;
     model := model s;
     train_dataiter := reset (train_dataiter s);
     test_dataiter := reset (test_dataiter s);
     init_rule := init_rule s;
     init_config := init_config s;
     update_rule := update_rule s;
     optim_config := optim_config s;
     lr_decay := lr_decay s;
     batch_size := batch_size s;
     num_epochs := num_epochs s;
     print_every := print_every s;
     verbose := verbose s;
     epoch := 0;
     best_val_acc := 0;
     best_params := own_dict ∅;
     loss_history := [];
     train_acc_history := [];
     val_acc_history := [];
     optim_configs := (λ _, optim_config s) <$> param_configs (model s);
     init_configs := (λ _, init_config s) <$> param_configs (model s);
     stdout := stdout s |}.

(** Lines 54-114. [h] is the store the model's arrays live in and [out]
    what has been printed so far. *)
Definition __init__ (h : list tensor) (out : list event) (model : Model)
    (train_dataiter test_dataiter : I) (kwargs : gmap string kwval) : result Solver :=
  let '(init_rule, kwargs) := pop "init_rule" (KStr "xavier") kwargs in
  let '(init_config, kwargs) := pop "init_config" (KDict ∅) kwargs in
  let '(update_rule, kwargs) := pop "update_rule" (KStr "sgd") kwargs in
  let '(optim_config, kwargs) := pop "optim_config" (KDict ∅) kwargs in
  let '(lr_decay, kwargs) := pop "lr_decay" (KFloat 1) kwargs in
  let '(batch_size, kwargs) := pop "batch_size" (KInt 100) kwargs in
  let '(num_epochs, kwargs) := pop "num_epochs" (KInt 10) kwargs in
  let '(print_every, kwargs) := pop "print_every" (KInt 10) kwargs in
  let '(verbose, kwargs) := pop "verbose" (KBool true) kwargs in
  if bool_decide (0 < size kwargs)%nat then
    Raise (ValueError (Unrecognized_arguments (map_to_list kwargs).*1))
  else
    update_rule ← as_str "update_rule" update_rule;
    match optim update_rule with
    | None => Raise (ValueError (Invalid_update_rule update_rule))
    | Some update_rule =>
        init_rule ← as_str "init_rule" init_rule;
        match init_module init_rule with
        | None => Raise (ValueError (Invalid_init_rule init_rule))
        | Some init_rule =>
            init_config ← as_dict "init_config" init_config;
            optim_config ← as_dict "optim_config" optim_config;
            lr_decay ← as_float "lr_decay" lr_decay;
            batch_size ← as_int "batch_size" batch_size;
            num_epochs ← as_int "num_epochs" num_epochs;
            print_every ← as_int "print_every" print_every;
            verbose ← as_bool "verbose" verbose;
            Ok (_reset (mkSolver h model train_dataiter test_dataiter init_rule init_config
                          update_rule optim_config lr_decay batch_size num_epochs print_every
                          verbose 0 0 (own_dict ∅) [] [] [] ∅ ∅ out))
        end
    end.

(** *** [init] (lines 207-213) *)

(** One iteration: the array object that [init_rule] returns is bound to
    [model.params[name]]. [nc.2] is [config['shape']], which every entry
    of [param_configs] is taken to have. *)
Definition init_param (s : Solver) (nc : string * shape) : result Solver :=
  config ← getitem nc.1 (init_configs s);
  let '(h, w) := init_rule s (store s) nc.2 config in
  Ok (set_params (<[nc.1 := w]> (params (model s))) (set_store h s)).

Definition init (s : Solver) : result Solver :=
  foldM init_param s (map_to_list (param_configs (model s))).

(** *** [_step] (lines 144-174) *)

(** The body of the loop of lines 169-174, for the item [(p, w)]. *)
Definition update_param (grads : gmap string tensor) (s : Solver) (pw : string * loc) :
    result Solver :=
  dw ← getitem pw.1 grads;
  config ← getitem pw.1 (optim_configs s);
  let '(h, next_w, next_config) := update_rule s (store s) pw.2 dw config in
  Ok (set_optim_configs (<[pw.1 := next_config]> (optim_configs s))
        (set_params (<[pw.1 := next_w]> (params (model s))) (set_store h s))).

Definition _step (s : Solver) (batch : DataBatch X) : result Solver :=
  let X_batch := data batch in
  let y_batch := label batch in
  let loss_func := λ _ : list tensor, loss (forward (params_values s) X_batch) y_batch in
  let items := map_to_list (params (model s)) in
  let param_arrays := omap (λ pw : string * loc, store s !! pw.2) items in
  let param_keys := items.*1 in
  let '(grad_arrays, loss_value) := grad_and_loss loss_func param_arrays in
  let grads : gmap string tensor := list_to_map (zip param_keys grad_arrays) in
  let s := set_loss_history (loss_history s ++ [loss_value]) s in
  foldM (update_param grads) s items.

(** *** [check_accuracy] (lines 176-205) *)

(** Lines 199-205: the loop over [check_dataiter] and the final ratio;
    also the iterator the loop leaves behind. *)
Definition accuracy_over (s : Solver) (check_dataiter : I) : result (Qc * I) :=
  let '(batches, after) := for_each check_dataiter in
  '(acc_count, num_samples) ←
    foldM (λ (c : nat * nat) each_batch,
             n ← count_correct (forward (params_values s) (data each_batch)) (label each_batch);
             Ok (c.1 + n, c.2 + dataiter_batch_size check_dataiter)%nat)
          (0, 0)%nat batches;
  acc ← float_div acc_count num_samples;
  Ok (acc, after).

(** The result is the accuracy and the state of [dataiter] after the call:
    a sub-iterator is a new object, and iterating it leaves [dataiter] as
    it was. *)
Definition check_accuracy (s : Solver) (dataiter : I) (num_samples : option nat)
    (batch_size : nat) : result (Qc * I) :=
  let N := num_data dataiter in
  match num_samples with
  | Some n =>
      if bool_decide (n < N)%nat then
        '(acc, _) ← accuracy_over s (getsubiter dataiter n);
        Ok (acc, dataiter)
      else accuracy_over s dataiter
  | None => accuracy_over s dataiter
  end.

(** *** [train] (lines 215-263) *)

(** Lines 226-227: maybe print the training loss; [t] counts the batches
    of the whole run. *)
Definition print_loss (num_iterations t : nat) (s : Solver) : result Solver :=
  if verbose s then
    if bool_decide (print_every s = 0)%nat then Raise ZeroDivisionError
    else if bool_decide (t `mod` print_every s = 0)%nat then
      match last (loss_history s) with
      | Some l => Ok (print (print_iteration (t + 1) num_iterations l) s)
      | None => Raise IndexError
      end
    else Ok s
  else Ok s.

(** Lines 224-228: one batch of the inner loop. *)
Definition train_batch (num_iterations : nat) (st : Solver * nat)
    (each_batch : DataBatch X) : result (Solver * nat) :=
  s ← _step st.1 each_batch;
  s ← print_loss num_iterations st.2 s;
  Ok (s, (st.2 + 1)%nat).

(** Lines 250-257: keep track of the best model. The new dict holds the
    addresses found in [model.params] (line 257), not copies of the
    arrays (line 256 is commented out). *)
Definition keep_best (val_acc : Qc) (s : Solver) : Solver :=
  if bool_decide (best_val_acc s < val_acc) then
    let s := set_best_val_acc val_acc s in
    set_best_params
      (own_dict (foldl (λ d kv, <[kv.1 := kv.2]> d) ∅ (map_to_list (params (model s))))) s
  else s.

(** Lines 259-260. *)
Definition decay_one (s : Solver) (k : string) : result Solver :=
  config ← getitem k (optim_configs s);
  lr ← getitem "learning_rate" config;
  Ok (set_optim_configs (<[k := <["learning_rate" := lr * lr_decay s]> config]> (optim_configs s)) s).

Definition decay_learning_rates (s : Solver) : result Solver :=
  foldM decay_one s (map_to_list (optim_configs s)).*1.

(** Lines 232-244: evaluate after the epoch, record both accuracies and
    restart both iterators. *)
Definition evaluate (s : Solver) : result (Qc * Qc * Solver) :=
  '(train_acc, it) ← check_accuracy s (train_dataiter s) (Some 1000%nat) (batch_size s);
  let s := set_train_dataiter it s in
  '(val_acc, it) ← check_accuracy s (test_dataiter s) None (batch_size s);
  let s := set_test_dataiter it s in
  let s := set_train_acc_history (train_acc_history s ++ [train_acc]) s in
  let s := set_val_acc_history (val_acc_history s ++ [val_acc]) s in
  let s := set_train_dataiter (reset (train_dataiter s)) s in
  let s := set_test_dataiter (reset (test_dataiter s)) s in
  Ok (train_acc, val_acc, s).

(** Lines 246-248. *)
Definition print_summary (train_acc val_acc : Qc) (s : Solver) : Solver :=
  if verbose s
  then print (print_epoch_summary (epoch s) (num_epochs s) train_acc val_acc) s
  else s.

(** Lines 222-260: the body of the loop over the epochs. *)
Definition train_epoch (num_iterations : nat) (st : Solver * nat) (i_epoch : nat) :
    result (Solver * nat) :=
  let s := print (print_epoch i_epoch) st.1 in
  let '(batches, after) := for_each (train_dataiter s) in
  st ← foldM (train_batch num_iterations) (s, st.2) batches;
  r ← evaluate (set_train_dataiter after st.1);
  let val_acc := r.1.2 in
  let s := print_summary r.1.1 val_acc r.2 in
  let s := keep_best val_acc s in
  s ← decay_learning_rates s;
  Ok (s, st.2).

(** The first [n] epochs of [train]. *)
Definition run_epochs (n : nat) (s : Solver) : result (Solver * nat) :=
  let num_iterations := (getnumiterations (train_dataiter s) * num_epochs s)%nat in
  foldM (train_epoch num_iterations) (s, 0%nat) (seq 0 n).

(** Line 263: [model.params] becomes the dict [best_params] refers to. *)
Definition swap_best (s : Solver) : Solver :=
  set_best_params model_dict (set_params (best_params_dict s) s).

Definition train (s : Solver) : result Solver :=
  st ← run_epochs (num_epochs s) s;
  Ok (swap_best st.1).

End solver.

(** ** A concrete iterator *)

(** Modelled from the spec: the Data Iterator of sections 2 and 6, an
    ordered, restartable, finite sequence of batches over labelled
    examples, with a bounded prefix view. The iteration resumes where the
    last one stopped, so an exhausted iterator yields nothing until it is
    restarted (section 4.5, step 4). *)
Record NDArrayIter (A : Type) := mkIter {
  examples : list (A * nat);
  iter_batch_size : nat;
  cursor : nat
}.
Arguments mkIter {A} examples iter_batch_size cursor.
Arguments examples {A} n.
Arguments iter_batch_size {A} n.
Arguments cursor {A} n.

(** Consecutive slices of [n] elements, the last one possibly shorter. *)
Fixpoint chunks_fuel {A : Type} (fuel n : nat) (l : list A) : list (list A) :=
  match fuel with
  | O => []
  | S fuel =>
      match l with
      | [] => []
      | _ => take n l :: chunks_fuel fuel n (drop n l)
      end
  end.

Definition chunks {A : Type} (n : nat) (l : list A) : list (list A) :=
  match n with
  | O => []
  | S _ => chunks_fuel (length l) n l
  end.

Definition batches {A : Type} (it : NDArrayIter A) : list (DataBatch (list A)) :=
  (λ c : list (A * nat), mkBatch c.*1 c.*2) <$> chunks (iter_batch_size it) (examples it).

#[global] Instance NDArrayIter_DataIter {A : Type} : DataIter (NDArrayIter A) (list A) := {|
  num_data it := length (examples it);
  dataiter_batch_size it := iter_batch_size it;
  getnumiterations it := length (batches it);
  getsubiter it n := mkIter (take n (examples it)) (iter_batch_size it) 0;
  reset it := mkIter (examples it) (iter_batch_size it) 0;
  for_each it :=
    (drop (cursor it) (batches it),
     mkIter (examples it) (iter_batch_size it) (cursor it `max` length (batches it)))
|}.

(** ** A small model and its modules *)

(** A model with scalar arrays whose two class scores are [0] and the sum
    of its parameters [w] and [b], whatever the example. *)
Definition toy_forward (ps : gmap string Qc) (xs : list nat) : list (list Qc) :=
  (λ _, [0; default 0 (ps !! "w") + default 0 (ps !! "b")]) <$> xs.

Definition toy_loss (predict : list (list Qc)) (label : list nat) : Qc :=
  foldr Qcplus 0 (concat predict).

(** Every gradient is [1]. *)
Definition toy_grad_and_loss (loss_func : list Qc → Qc) (param_arrays : list Qc) :
    list Qc * Qc :=
  ((λ _, 1) <$> param_arrays, loss_func param_arrays).

(** A rule that works in place:
    [w -= config['learning_rate'] * dw; return w, config]. *)
Definition sgd : update_fn Qc := λ h w dw config,
  let lr := default (Q2Qc 0.01) (config !! "learning_rate") in
  (alter (λ v, v - lr * dw) w h, w, <["learning_rate" := lr]> config).

(** The same step, returned in a new array:
    [return w - config['learning_rate'] * dw, config]. *)
Definition sgd_copy : update_fn Qc := λ h w dw config,
  let lr := default (Q2Qc 0.01) (config !! "learning_rate") in
  (h ++ [default 0 (h !! w) - lr * dw], length h, <["learning_rate" := lr]> config).

(** An initializer that returns a new array filled with
    [config['value']]. *)
Definition constant : init_fn Qc unit := λ h _ config,
  (h ++ [default 0 (config !! "value")], length h).

#[global] Instance toy_env : Env Qc (list nat) unit := {|
  forward := toy_forward;
  loss := toy_loss;
  grad_and_loss := toy_grad_and_loss;
  optim name :=
    if bool_decide (name = "sgd") then Some sgd
    else if bool_decide (name = "sgd_copy") then Some sgd_copy
    else None;
  init_module name :=
    if bool_decide (name = "xavier") then Some constant
    else if bool_decide (name = "constant") then Some constant
    else None
|}.

(** [n] examples, all with the label [y]. *)
Definition labelled (n y : nat) : list (nat * nat) := replicate n (0%nat, y).

(** A solver for the model with the single parameter [w], filled with
    [2] by [init]; [1001] training examples in one batch, two validation
    examples with the label [val_label]; learning rate [1], no decay. *)
Definition one_param_solver (rule : string) (val_label epochs : nat) (verbose : bool) :
    result (@Solver Qc unit (NDArrayIter nat)) :=
  s ← __init__ [] [] (mkModel ∅ {["w" := ()]})
        (mkIter (labelled 1001 1) 1001 0) (mkIter (labelled 2 val_label) 2 0)
        (list_to_map [("update_rule", KStr rule); ("init_config", KDict {["value" := 2]});
                      ("optim_config", KDict {["learning_rate" := 1]});
                      ("num_epochs", KInt epochs); ("verbose", KBool verbose)]);
  init s.

(** The solver of the scenario of section 8: two parameters,
    [optimizerConfig = {learning_rate: 0.1}], [lrDecay = 0.5] and
    [numEpochs = 3]. *)
Definition two_param_solver : result (@Solver Qc unit (NDArrayIter nat)) :=
  s ← __init__ [] [] (mkModel ∅ {["w" := (); "b" := ()]})
        (mkIter (labelled 1001 1) 1001 0) (mkIter (labelled 2 1) 2 0)
        (list_to_map [("optim_config", KDict {["learning_rate" := Q2Qc 0.1]});
                      ("lr_decay", KFloat (Q2Qc 0.5)); ("num_epochs", KInt 3)]);
  init s.

(** The same solver as [one_param_solver "sgd" 1 2 false], on 200 training
    examples. *)
Definition small_train_solver : result (@Solver Qc unit (NDArrayIter nat)) :=
  s ← __init__ [] [] (mkModel ∅ {["w" := ()]})
        (mkIter (labelled 200 1) 200 0) (mkIter (labelled 2 1) 2 0)
        (list_to_map [("init_config", KDict {["value" := 2]});
                      ("optim_config", KDict {["learning_rate" := 1]});
                      ("num_epochs", KInt 2); ("verbose", KBool false)]);
  init s.

(** An iterator of 200 examples in batches of 50; the label of the first
    150 is [1], that of the others [0]. *)
Definition iter_200 : NDArrayIter nat := mkIter (labelled 150 1 ++ labelled 50 0) 50 0.

(** An iterator of 100 examples with the label [0] in batches of 10. *)
Definition iter_100 : NDArrayIter nat := mkIter (labelled 100 0) 10 0.

Definition untrained_solver : result (@Solver Qc unit (NDArrayIter nat)) :=
  __init__ [] [] (mkModel ∅ {["w" := ()]})
    (mkIter (labelled 1001 1) 1001 0) (mkIter (labelled 2 1) 2 0) ∅.

(** A solver whose model has got the parameter [w] since the solver was
    constructed: [init_configs] has no entry for it. *)
Definition late_param_solver : @Solver Qc unit (NDArrayIter nat) :=
  mkSolver [] (mkModel ∅ {["w" := ()]}) (mkIter (labelled 1001 1) 1001 0)
    (mkIter (labelled 2 1) 2 0) constant ∅ sgd ∅ 1 100 10 10 true 0 0 (own_dict ∅)
    [] [] [] ∅ ∅ [].

(** A solver for a model that comes with an array for [w] which its
    [param_configs] do not list. *)
Definition foreign_param_solver : result (@Solver Qc unit (NDArrayIter nat)) :=
  __init__ [2] [] (mkModel {["w" := 0%nat]} ∅)
    (mkIter (labelled 1001 1) 1001 0) (mkIter (labelled 2 1) 2 0) ∅.

(** The solver [one_param_solver "sgd" 1 10 true] with [print_every = 0]. *)
Definition print_every_zero_solver : result (@Solver Qc unit (NDArrayIter nat)) :=
  s ← __init__ [] [] (mkModel ∅ {["w" := ()]})
        (mkIter (labelled 1001 1) 1001 0) (mkIter (labelled 2 1) 2 0)
        (list_to_map [("init_config", KDict {["value" := 2]});
                      ("optim_config", KDict {["learning_rate" := 1]});
                      ("print_every", KInt 0)]);
  init s.

(** A batch of two examples with the label [1]. *)
Definition two_examples : DataBatch (list nat) := mkBatch [0; 0]%nat [1; 1]%nat.

(** ** The vocabulary of the properties *)

Section vocabulary.

Context {tensor X shape I : Type} `{DataIter I X} `{Env tensor X shape}.

(** The bookkeeping of a solver on which nothing but [_reset] and [init]
    has run. *)
Definition after_reset (s : @Solver tensor shape I) : Prop :=
  epoch s = 0%nat ∧ best_val_acc s = 0 ∧ best_params s = own_dict ∅ ∧
  loss_history s = [] ∧ train_acc_history s = [] ∧ val_acc_history s = [] ∧
  (∃ it, train_dataiter s = reset it) ∧ (∃ it, test_dataiter s = reset it) ∧
  optim_configs s = (λ _, optim_config s) <$> param_configs (model s).

(** What no method but [__init__] and [_reset] assigns. *)
Record same_setup (s s' : @Solver tensor shape I) : Prop := {
  same_param_configs : param_configs (model s') = param_configs (model s);
  same_init_rule : init_rule s' = init_rule s;
  same_init_config : init_config s' = init_config s;
  same_update_rule : update_rule s' = update_rule s;
  same_optim_config : optim_config s' = optim_config s;
  same_lr_decay : lr_decay s' = lr_decay s;
  same_batch_size : batch_size s' = batch_size s;
  same_num_epochs : num_epochs s' = num_epochs s;
  same_print_every : print_every s' = print_every s;
  same_verbose : verbose s' = verbose s;
  same_epoch : epoch s' = epoch s;
  same_init_configs : init_configs s' = init_configs s
}.

(** What, in addition, the steps of an epoch leave alone. *)
Record same_epoch_state (s s' : @Solver tensor shape I) : Prop := {
  same_train_dataiter : train_dataiter s' = train_dataiter s;
  same_test_dataiter : test_dataiter s' = test_dataiter s;
  same_best_val_acc : best_val_acc s' = best_val_acc s;
  same_best_params : best_params s' = best_params s;
  same_train_acc_history : train_acc_history s' = train_acc_history s;
  same_val_acc_history : val_acc_history s' = val_acc_history s
}.

(** Every parameter is an array of the store. *)
Definition params_allocated (s : @Solver tensor shape I) : Prop :=
  map_Forall (λ _ l, (l < length (store s))%nat) (params (model s)).

(** The store only grows from [s] to [s'], under the same update rule. *)
Definition store_grows (s s' : @Solver tensor shape I) : Prop :=
  update_rule s' = update_rule s ∧ store s `prefix_of` store s' ∧
  (params_allocated s → params_allocated s').

(** The epoch indices that the epoch summaries of an output report. *)
Definition summary_epochs (out : list event) : list nat :=
  omap (λ e, match e with print_epoch_summary i _ _ _ => Some i | _ => None end) out.

(** The epochs that the headers of line 222 in an output announce. *)
Definition epoch_headers (out : list event) : list nat :=
  omap (λ e, match e with print_epoch i => Some i | _ => None end) out.

(** The iteration lines of an output (line 227). *)
Definition iteration_lines (out : list event) : list event :=
  omap (λ e, match e with print_iteration _ _ _ => Some e | _ => None end) out.

(** The lines that lines 226-228 print for the batches numbered from [t]
    on whose losses are [ls]: one for every batch whose number is a
    multiple of [print_every]. *)
Definition loss_lines (print_every num_iterations t : nat) (ls : list Qc) : list event :=
  omap (λ tl : nat * Qc,
          if bool_decide (tl.1 `mod` print_every = 0)%nat
          then Some (print_iteration (tl.1 + 1) num_iterations tl.2) else None)
       (zip (seq t (length ls)) ls).

(** What one epoch does to the solver [s]: [s1] is the solver once the
    training batches are consumed, [train_acc] and [val_acc] the two
    accuracies, [s'] the solver at the end of the epoch. *)
Record epoch_effect (i_epoch : nat) (s s1 s' : @Solver tensor shape I)
    (train_acc val_acc : Qc) : Prop := {
  effect_setup : same_setup s s';
  effect_steps : same_setup s s1 ∧ same_epoch_state s s1;
  effect_store : store s' = store s1;
  effect_params : params (model s') = params (model s1);
  effect_train_dataiter : ∃ it,
    check_accuracy s1 (for_each (train_dataiter s)).2 (Some 1000%nat) (batch_size s)
      = Ok (train_acc, it) ∧ train_dataiter s' = reset it;
  effect_test_dataiter : ∃ it,
    check_accuracy s1 (test_dataiter s) None (batch_size s) = Ok (val_acc, it) ∧
    test_dataiter s' = reset it;
  effect_train_acc_history : train_acc_history s' = train_acc_history s ++ [train_acc];
  effect_val_acc_history : val_acc_history s' = val_acc_history s ++ [val_acc];
  effect_best_val_acc :
    best_val_acc s' = if bool_decide (best_val_acc s < val_acc) then val_acc else best_val_acc s;
  effect_best_params :
    best_params s' = if bool_decide (best_val_acc s < val_acc)
                     then own_dict (params (model s1)) else best_params s;
  effect_loss_history : ∃ ls,
    loss_history s' = loss_history s ++ ls ∧
    length ls = length (for_each (train_dataiter s)).1;
  effect_optim_configs :
    optim_configs s' = decayed (lr_decay s) <$> optim_configs s1 ∧
    map_Forall (λ _ c, is_Some (c !! "learning_rate")) (optim_configs s1);
  effect_stdout : ∃ out,
    stdout s' = stdout s ++ [print_epoch i_epoch] ++ out ++
      (if verbose s then [print_epoch_summary (epoch s) (num_epochs s) train_acc val_acc]
       else []) ∧
    summary_epochs out = []
}.

End vocabulary.

(** ** The errors of section 7 *)

(** [UnrecognizedOption] is the [ValueError] of line 101, [UnknownRule]
    that of line 106 or of line 111. *)
Definition UnrecognizedOption (e : exn) : Prop :=
  ∃ extra, e = ValueError (Unrecognized_arguments extra).

Definition UnknownRule (e : exn) : Prop :=
  ∃ name, e = ValueError (Invalid_update_rule name) ∨ e = ValueError (Invalid_init_rule name).

(** The recognized options: the keys that lines 87-96 pop. *)
Definition recognized : list string :=
  ["init_rule"; "init_config"; "update_rule"; "optim_config"; "lr_decay"; "batch_size";
   "num_epochs"; "print_every"; "verbose"].

(** What is left of [kwargs] once lines 87-96 have popped the options. *)
Definition unpacked (kwargs : gmap string kwval) : gmap string kwval :=
  foldr delete kwargs (reverse recognized).

(** The name of the rule that the option [k] selects, [d] by default. *)
Definition rule_name (k d : string) (kwargs : gmap string kwval) : option string :=
  match kwargs !! k with
  | None => Some d
  | Some (KStr name) => Some name
  | Some _ => None
  end.

(** ** Loops that may raise *)

Ltac inv_result H :=
  repeat match type of H with
  | Ok _ = Ok _ => injection H as H
  | Raise _ = Ok _ => discriminate H
  | context [mbind _ ?m] =>
      let E := fresh "E" in destruct m eqn:E; cbn [mbind result_bind] in H
  | context [match ?m with Ok _ => _ | Raise _ => _ end] =>
      let E := fresh "E" in destruct m eqn:E
  end.

Lemma holds_Ok {A : Type} (r : result A) (P : A → bool) :
  holds r P = true → ∃ a, r = Ok a ∧ P a = true.
Proof. destruct r; [eauto | done]. Qed.

Lemma foldM_app {A B : Type} (f : A → B → result A) (a : A) (l k : list B) :
  foldM f a (l ++ k) = a' ← foldM f a l; foldM f a' k.
Proof.
  revert a. induction l as [|b l IH]; intros a; [done|].
  cbn. destruct (f a b); cbn; [apply IH | done].
Qed.

(** A relation that every iteration establishes and that composes holds
    of the whole loop. *)
Lemma foldM_rel {A B : Type} (R : A → A → Prop) (f : A → B → result A) (l : list B) :
  (∀ a, R a a) →
  (∀ a1 a2 a3, R a1 a2 → R a2 a3 → R a1 a3) →
  (∀ a b a', b ∈ l → f a b = Ok a' → R a a') →
  ∀ a a', foldM f a l = Ok a' → R a a'.
Proof.
  intros Hrefl Htrans. induction l as [|b l IH]; intros Hf a a' Hfold; cbn in Hfold.
  - injection Hfold as <-. apply Hrefl.
  - inv_result Hfold. eapply Htrans.
    + eapply Hf; [left | done].
    + eapply IH; [|done]. intros; eapply Hf; [by right | done].
Qed.

(** An invariant of the iterations is one of the loop. *)
Lemma foldM_inv {A B : Type} (P : A → Prop) (f : A → B → result A) (l : list B) :
  (∀ a b a', b ∈ l → P a → f a b = Ok a' → P a') →
  ∀ a a', P a → foldM f a l = Ok a' → P a'.
Proof.
  induction l as [|b l IH]; intros Hf a a' Ha Hfold; cbn in Hfold.
  - by injection Hfold as <-.
  - inv_result Hfold. eapply IH; [|eapply Hf; [left|done..]|done].
    intros; eapply Hf; [by right | done..].
Qed.

(** Projections of assignments. *)
Ltac simpl_solver :=
  cbn [store model train_dataiter test_dataiter init_rule init_config update_rule optim_config
       lr_decay batch_size num_epochs print_every verbose epoch best_val_acc best_params
       loss_history train_acc_history val_acc_history optim_configs init_configs stdout
       params param_configs set_store set_params set_train_dataiter set_test_dataiter
       set_best_val_acc set_best_params set_loss_history set_train_acc_history
       set_val_acc_history set_optim_configs print] in *.

(** ** [argmax] and the count of correct predictions *)

Lemma argmax_from_spec row : ∀ best ibest i pre,
  length pre = i → pre !! ibest = Some best →
  (∀ x, x ∈ pre → x ≤ best) →
  (∀ j x, (j < ibest)%nat → pre !! j = Some x → x < best) →
  first_maximum (pre ++ row) (argmax_from best ibest i row).
Proof.
  induction row as [|x row IH]; intros best ibest i pre Hlen Hbest Hmax Hfirst; cbn.
  - rewrite app_nil_r. by exists best.
  - replace (pre ++ x :: row) with ((pre ++ [x]) ++ row) by by rewrite <-app_assoc.
    case_bool_decide as Hlt.
    + apply IH.
      * rewrite length_app. cbn. lia.
      * rewrite lookup_app_r by lia. by rewrite Hlen, Nat.sub_diag.
      * intros y [Hy| ->%list_elem_of_singleton]%elem_of_app; [|apply Qcle_refl].
        eapply Qcle_trans; [by apply Hmax | by apply Qclt_le_weak].
      * intros j y Hj Hy. rewrite lookup_app_l in Hy by lia.
        eapply Qcle_lt_trans; [|done]. apply Hmax. by eapply list_elem_of_lookup_2.
    + apply IH.
      * rewrite length_app. cbn. lia.
      * apply lookup_lt_Some in Hbest as Hib. by rewrite lookup_app_l by lia.
      * intros y [Hy| ->%list_elem_of_singleton]%elem_of_app; [by apply Hmax|].
        by apply Qcnot_lt_le.
      * intros j y Hj Hy. apply lookup_lt_Some in Hbest as Hib.
        rewrite lookup_app_l in Hy by lia. by eapply Hfirst.
Qed.

Lemma argmax_spec row c : argmax row = Ok c → first_maximum row c.
Proof.
  destruct row as [|x row]; [done|]. cbn. intros [= <-].
  apply (argmax_from_spec row x 0%nat 1%nat [x]); [done..| |].
  - intros y ->%list_elem_of_singleton. apply Qcle_refl.
  - intros; lia.
Qed.

Lemma first_maximum_unique row c c' : first_maximum row c → first_maximum row c' → c = c'.
Proof.
  intros (m & Hm & Hle & Hlt) (m' & Hm' & Hle' & Hlt').
  destruct (Nat.lt_trichotomy c c') as [Hc|[Hc|Hc]]; [|done|]; exfalso.
  - apply (Qclt_not_le m m'); [by eapply Hlt' | apply Hle; by eapply list_elem_of_lookup_2].
  - apply (Qclt_not_le m' m); [by eapply Hlt | apply Hle'; by eapply list_elem_of_lookup_2].
Qed.

Lemma mapM_argmax_spec predict : ∀ classes,
  mapM argmax predict = Ok classes → Forall2 first_maximum predict classes.
Proof.
  induction predict as [|row predict IH]; intros classes Hs; cbn in Hs.
  - injection Hs as <-. constructor.
  - destruct (argmax row) as [c|] eqn:Hc; [|done]. cbn in Hs.
    destruct (mapM argmax predict) as [cs|]; [|done]. cbn in Hs. injection Hs as <-.
    constructor; [by apply argmax_spec | by apply IH].
Qed.

Lemma mapM_argmax_total predict :
  Forall (λ row, row ≠ []) predict → ∃ classes, mapM argmax predict = Ok classes.
Proof.
  induction 1 as [|row predict Hrow _ [cs IH]]; [by exists []|].
  destruct row as [|x row]; [done|]. cbn. rewrite IH. cbn. eauto.
Qed.

(** With one row of scores per label, line 203 counts the examples whose
    label is the first index of the maximum of their row. *)
Lemma count_correct_spec predict label :
  Forall (λ row, row ≠ []) predict → length predict = length label →
  count_correct predict label = Ok (correct_predictions predict label).
Proof.
  intros Hrows Hlen. unfold count_correct, correct_predictions.
  destruct (mapM_argmax_total _ Hrows) as [classes Hcs]. rewrite Hcs. cbn. f_equal.
  apply mapM_argmax_spec in Hcs. unfold count_equal.
  rewrite bool_decide_eq_true_2 by (by rewrite <-(Forall2_length _ _ _ Hcs)).
  clear Hrows. revert label Hlen.
  induction Hcs as [|row c predict classes Hc _ IH]; intros label Hlen; [done|].
  destruct label as [|y label]; [done|]. cbn [zip zip_with]. rewrite !filter_cons. cbn [fst snd].
  injection Hlen as Hlen. specialize (IH label Hlen).
  destruct (decide (c = y)) as [->|Hne].
  - rewrite decide_True by done. cbn [length]. by rewrite IH.
  - rewrite decide_False; [done|]. intros Hy. by apply Hne, (first_maximum_unique row).
Qed.

Lemma count_correct_total predict label :
  Forall (λ row, row ≠ []) predict → ∃ n, count_correct predict label = Ok n.
Proof.
  intros [classes Hcs]%mapM_argmax_total. unfold count_correct. rewrite Hcs. cbn. eauto.
Qed.

Lemma count_equal_le (a b : list nat) :
  length a = length b → (count_equal a b ≤ length b)%nat.
Proof.
  intros Hlen. unfold count_equal. rewrite bool_decide_eq_true_2 by done.
  etrans; [apply length_filter|]. rewrite length_zip. lia.
Qed.

Lemma count_correct_le predict label n :
  length predict = length label → count_correct predict label = Ok n →
  (n ≤ length label)%nat.
Proof.
  intros Hlen. unfold count_correct.
  destruct (mapM argmax predict) as [classes|] eqn:Hcs; [|done].
  cbn. intros [= <-]. apply count_equal_le.
  apply mapM_argmax_spec in Hcs. by rewrite <-(Forall2_length _ _ _ Hcs).
Qed.

Lemma correct_predictions_le predict label :
  (correct_predictions predict label ≤ length label)%nat.
Proof.
  unfold correct_predictions. etrans; [apply length_filter|].
  rewrite length_zip. lia.
Qed.

Lemma Q2Qc_fraction_range (n d : nat) :
  (0 < d)%nat → (n ≤ d)%nat → 0 ≤ Q2Qc (Z.of_nat n # Pos.of_nat d) ≤ 1.
Proof.
  intros Hd Hn. unfold Qcle. cbn. rewrite !Qred_correct.
  unfold Qle. cbn. split; [lia|].
  rewrite Z.mul_1_r, Z.mul_1_l. 
  rewrite <-(Nat2Pos.id d) in Hn by lia. rewrite <-positive_nat_Z. lia.
Qed.

(** ** What each method leaves alone *)

Section frames.

Context {tensor X shape I : Type} `{DataIter I X} `{Env tensor X shape}.
Implicit Types s : @Solver tensor shape I.

Lemma same_setup_refl s : same_setup s s.
Proof. by split. Qed.

Lemma same_setup_trans s1 s2 s3 : same_setup s1 s2 → same_setup s2 s3 → same_setup s1 s3.
Proof. intros [] []; split; congruence. Qed.

Lemma same_epoch_state_refl s : same_epoch_state s s.
Proof. by split. Qed.

Lemma same_epoch_state_trans s1 s2 s3 :
  same_epoch_state s1 s2 → same_epoch_state s2 s3 → same_epoch_state s1 s3.
Proof. intros [] []; split; congruence. Qed.

Lemma update_param_frame grads s pw s' :
  update_param grads s pw = Ok s' →
  same_setup s s' ∧ same_epoch_state s s' ∧ loss_history s' = loss_history s ∧
  stdout s' = stdout s.
Proof.
  unfold update_param. intros Hs. inv_result Hs.
  destruct (update_rule s _ _ _ _) as [[h next_w] next_config].
  injection Hs as <-. by repeat split.
Qed.

Lemma _step_frame s batch s' :
  _step s batch = Ok s' →
  same_setup s s' ∧ same_epoch_state s s' ∧
  (∃ l, loss_history s' = loss_history s ++ [l]) ∧ stdout s' = stdout s.
Proof.
  unfold _step. destruct (grad_and_loss _ _) as [grad_arrays loss_value].
  intros Hs.
  eapply (foldM_rel (λ s1 s2, same_setup s1 s2 ∧ same_epoch_state s1 s2 ∧
            loss_history s2 = loss_history s1 ∧ stdout s2 = stdout s1)) in Hs.
  - destruct Hs as ([] & [] & Hl & Hout). cbn in *. repeat split; try done. eauto.
  - by repeat split.
  - intros s1 s2 s3 (? & ? & ? & ?) (? & ? & ? & ?).
    split_and!; eauto using same_setup_trans, same_epoch_state_trans; congruence.
  - intros s1 pw s2 _. apply update_param_frame.
Qed.

Lemma init_frame s s' :
  init s = Ok s' →
  same_setup s s' ∧ same_epoch_state s s' ∧ loss_history s' = loss_history s ∧
  optim_configs s' = optim_configs s ∧ stdout s' = stdout s.
Proof.
  unfold init. generalize (map_to_list (param_configs (model s))). intros l Hs.
  eapply (foldM_rel (λ s1 s2, same_setup s1 s2 ∧ same_epoch_state s1 s2 ∧
            loss_history s2 = loss_history s1 ∧ optim_configs s2 = optim_configs s1 ∧
            stdout s2 = stdout s1)) in Hs; [done| |..].
  - by repeat split.
  - intros s1 s2 s3 (? & ? & ? & ? & ?) (? & ? & ? & ? & ?).
    split_and!; eauto using same_setup_trans, same_epoch_state_trans; congruence.
  - intros s1 nc s2 _. unfold init_param. intros Hi. inv_result Hi.
    destruct (init_rule s1 _ _ _) as [h w]. simplify_eq. by repeat split.
Qed.

Lemma print_loss_frame num_iterations t s s' :
  print_loss num_iterations t s = Ok s' →
  same_setup s s' ∧ same_epoch_state s s' ∧ loss_history s' = loss_history s ∧
  ∃ out, stdout s' = stdout s ++ out ∧ summary_epochs out = [].
Proof.
  unfold print_loss. intros Hs.
  repeat case_match; simplify_eq;
    try (split_and!; try done; exists []; by rewrite app_nil_r).
  split_and!; try done. by eexists [_].
Qed.

Lemma train_batch_frame num_iterations s t batch s' t' :
  train_batch num_iterations (s, t) batch = Ok (s', t') →
  same_setup s s' ∧ same_epoch_state s s' ∧
  (∃ l, loss_history s' = loss_history s ++ [l]) ∧
  (∃ out, stdout s' = stdout s ++ out ∧ summary_epochs out = []) ∧ t' = S t.
Proof.
  unfold train_batch. cbn [fst snd]. intros Hs. inv_result Hs. simplify_eq.
  apply _step_frame in E as (? & ? & [l Hl] & Hout).
  apply print_loss_frame in E0 as (? & ? & Hl' & out & Hout' & ?).
  split_and!; eauto using same_setup_trans, same_epoch_state_trans.
  - exists l. congruence.
  - exists out. split; [congruence | done].
  - lia.
Qed.

Lemma snapshot_dict (d : gmap string loc) :
  foldl (λ (d : gmap string loc) (kv : string * loc), <[kv.1 := kv.2]> d) ∅ (map_to_list d) = d.
Proof.
  rewrite <-(list_to_map_to_list d) at 2.
  assert (NoDup (map_to_list d).*1) as Hnd by apply NoDup_fst_map_to_list.
  revert Hnd. generalize (map_to_list d). intros l.
  assert (∀ (m : gmap string loc), (∀ k, k ∈ l.*1 → m !! k = None) → NoDup l.*1 →
     foldl (λ (d : gmap string loc) (kv : string * loc), <[kv.1 := kv.2]> d) m l = list_to_map l ∪ m) as Hgen.
  { induction l as [|[k v] l IH]; intros m Hm Hnd; cbn.
    - by rewrite (left_id_L ∅ (∪)).
    - apply NoDup_cons in Hnd as [Hk Hnd]. rewrite IH; [|..|done].
      + rewrite <-insert_union_l, <-insert_union_r; [done|].
        by apply not_elem_of_list_to_map_1.
      + intros k' Hk'. rewrite lookup_insert_ne; [|by intros ->].
        apply Hm. cbn. by right. }
  intros Hnd. rewrite Hgen, (right_id_L ∅ (∪)); [done| |done]. intros; apply lookup_empty.
Qed.

Lemma keep_best_spec val_acc s :
  keep_best val_acc s =
    if bool_decide (best_val_acc s < val_acc)
    then set_best_params (own_dict (params (model s))) (set_best_val_acc val_acc s)
    else s.
Proof. unfold keep_best. case_bool_decide; [|done]. cbn. by rewrite snapshot_dict. Qed.

Lemma check_accuracy_iter s it ns b acc it' :
  check_accuracy s it ns b = Ok (acc, it') → it' = it ∨ it' = (for_each it).2.
Proof.
  assert (∀ it, accuracy_over s it = Ok (acc, it') → it' = (for_each it).2) as Hover.
  { intros it0. unfold accuracy_over. destruct (for_each it0) as [bs after].
    intros Hs. inv_result Hs. destruct a. inv_result Hs. by simplify_eq. }
  unfold check_accuracy. intros Hs. repeat case_match; eauto.
  inv_result Hs. destruct a. simplify_eq. by left.
Qed.

Lemma evaluate_inv s train_acc val_acc s' :
  evaluate s = Ok (train_acc, val_acc, s') →
  ∃ it1 it2,
    check_accuracy s (train_dataiter s) (Some 1000%nat) (batch_size s) = Ok (train_acc, it1) ∧
    check_accuracy s (test_dataiter s) None (batch_size s) = Ok (val_acc, it2) ∧
    s' = set_test_dataiter (reset it2) (set_train_dataiter (reset it1)
           (set_val_acc_history (val_acc_history s ++ [val_acc])
              (set_train_acc_history (train_acc_history s ++ [train_acc]) s))).
Proof.
  unfold evaluate. intros Hs.
  destruct (check_accuracy s (train_dataiter s) _ _) as [[ta it1]|] eqn:E1; [|done].
  cbn [mbind result_bind] in Hs.
  change (check_accuracy (set_train_dataiter it1 s) (test_dataiter (set_train_dataiter it1 s)) None
            (batch_size (set_train_dataiter it1 s)))
    with (check_accuracy s (test_dataiter s) None (batch_size s)) in Hs.
  destruct (check_accuracy s (test_dataiter s) _ _) as [[va it2]|] eqn:E2; [|done].
  cbn [mbind result_bind] in Hs. simplify_eq. by exists it1, it2.
Qed.

Lemma train_epoch_inv ni s t e s' t' :
  train_epoch ni (s, t) e = Ok (s', t') →
  ∃ s1 train_acc val_acc s2,
    foldM (train_batch ni) (print (print_epoch e) s, t) (for_each (train_dataiter s)).1 = Ok (s1, t') ∧
    evaluate (set_train_dataiter (for_each (train_dataiter s)).2 s1) = Ok (train_acc, val_acc, s2) ∧
    decay_learning_rates (keep_best val_acc (print_summary train_acc val_acc s2)) = Ok s'.
Proof.
  unfold train_epoch. cbn [fst snd]. 
  change (train_dataiter (print (print_epoch e) s)) with (train_dataiter s).
  destruct (for_each (train_dataiter s)) as [batches after] eqn:Hfor.
  intros Hs. inv_result Hs. simplify_eq. destruct a as [s1 t']. destruct a0 as [[ta va] s2].
  by exists s1, ta, va, s2.
Qed.

Lemma decay_one_inv s k s' :
  decay_one s k = Ok s' →
  ∃ c lr, optim_configs s !! k = Some c ∧ c !! "learning_rate" = Some lr ∧
    s' = set_optim_configs (<[k := decayed (lr_decay s) c]> (optim_configs s)) s.
Proof.
  unfold decay_one, getitem. intros Hs.
  destruct (optim_configs s !! k) as [c|] eqn:Hc; [|done]. cbn in Hs.
  destruct (c !! "learning_rate") as [lr|] eqn:Hlr; [|done]. cbn in Hs.
  simplify_eq. exists c, lr. split_and!; try done.
  f_equal. f_equal. unfold decayed. apply map_eq. intros i.
  destruct (decide (i = "learning_rate")) as [->|].
  - by rewrite lookup_insert_eq, lookup_alter_eq, Hlr.
  - by rewrite lookup_insert_ne, lookup_alter_ne.
Qed.

Lemma decay_loop ks : NoDup ks → ∀ s s', foldM decay_one s ks = Ok s' →
  s' = set_optim_configs (optim_configs s') s ∧
  (∀ k, k ∈ ks → ∃ c, optim_configs s !! k = Some c ∧ is_Some (c !! "learning_rate")) ∧
  (∀ k, optim_configs s' !! k =
        if decide (k ∈ ks) then decayed (lr_decay s) <$> optim_configs s !! k
        else optim_configs s !! k).
Proof.
  induction 1 as [|k ks Hk Hnd IH]; intros s s' Hs; cbn in Hs.
  - simplify_eq. split_and!; [by destruct s'| |].
    + intros k Hk. by apply elem_of_nil in Hk.
    + intros k. by rewrite decide_False by apply not_elem_of_nil.
  - inv_result Hs. apply decay_one_inv in E as (c & lr & Hc & Hlr & ->).
    apply IH in Hs as (Hs' & Hin & Hlook). cbn in *. split_and!.
    + by rewrite Hs' at 1.
    + intros k' [->|Hk']%elem_of_cons; [eauto|].
      destruct (Hin k' Hk') as (c' & Hc' & ?).
      rewrite lookup_insert_ne in Hc' by (by intros ->). eauto.
    + intros k'. rewrite Hlook. destruct (decide (k' = k)) as [->|].
      * rewrite decide_False by done. rewrite decide_True by left.
        by rewrite lookup_insert_eq, Hc.
      * rewrite lookup_insert_ne by done.
        destruct (decide (k' ∈ ks)) as [Hin'|Hin'].
        -- by rewrite decide_True by by right.
        -- rewrite decide_False; [done|]. by intros [?|?]%elem_of_cons.
Qed.

Lemma decay_learning_rates_inv s s' :
  decay_learning_rates s = Ok s' →
  s' = set_optim_configs (decayed (lr_decay s) <$> optim_configs s) s ∧
  map_Forall (λ _ c, is_Some (c !! "learning_rate")) (optim_configs s).
Proof.
  unfold decay_learning_rates. intros Hs.
  apply decay_loop in Hs as (Hs' & Hin & Hlook); [|apply NoDup_fst_map_to_list].
  split.
  - rewrite Hs'. f_equal. apply map_eq. intros k. rewrite Hlook, lookup_fmap.
    case_decide as Hk; [done|]. 
    destruct (optim_configs s !! k) as [c|] eqn:Hc; [|done].
    destruct Hk. apply list_elem_of_fmap. exists (k, c). split; [done|].
    by apply elem_of_map_to_list.
  - intros k c Hc. destruct (Hin k) as (c' & ? & ?); [|by simplify_eq].
    apply list_elem_of_fmap. exists (k, c). split; [done|]. by apply elem_of_map_to_list.
Qed.

End frames.

(** ** One epoch and a run of epochs *)

Section epochs.

Context {tensor X shape I : Type} `{DataIter I X} `{Env tensor X shape}.
Implicit Types s : @Solver tensor shape I.

Lemma train_batches_frame num_iterations batches : ∀ s t s' t',
  foldM (train_batch num_iterations) (s, t) batches = Ok (s', t') →
  same_setup s s' ∧ same_epoch_state s s' ∧
  (∃ ls, loss_history s' = loss_history s ++ ls ∧ length ls = length batches) ∧
  (∃ out, stdout s' = stdout s ++ out ∧ summary_epochs out = []) ∧
  t' = (t + length batches)%nat.
Proof.
  induction batches as [|b batches IH]; intros s t s' t' Hs; cbn in Hs.
  - simplify_eq. split_and!; [by split| by split| | |cbn; lia].
    + exists []. by rewrite app_nil_r.
    + exists []. by rewrite app_nil_r.
  - inv_result Hs. destruct a as [s1 t1].
    apply train_batch_frame in E as (? & ? & [l Hl] & (out1 & Hout1 & Hsum1) & ->).
    apply IH in Hs as (? & ? & (ls & Hls & Hlen) & (out2 & Hout2 & Hsum2) & ->).
    split_and!; eauto using same_setup_trans, same_epoch_state_trans.
    + exists (l :: ls). rewrite Hls, Hl, <-app_assoc. split; [done | cbn; lia].
    + exists (out1 ++ out2). rewrite Hout2, Hout1, <-app_assoc. split; [done|].
      unfold summary_epochs in *. by rewrite omap_app, Hsum1, Hsum2.
Qed.

(** One epoch, end to end. *)
Lemma train_epoch_summary ni s t e s' t' :
  train_epoch ni (s, t) e = Ok (s', t') →
  ∃ s1 train_acc val_acc it1 it2,
    foldM (train_batch ni) (print (print_epoch e) s, t) (for_each (train_dataiter s)).1
      = Ok (s1, t') ∧
    check_accuracy s1 (for_each (train_dataiter s)).2 (Some 1000%nat) (batch_size s1)
      = Ok (train_acc, it1) ∧
    check_accuracy s1 (test_dataiter s1) None (batch_size s1) = Ok (val_acc, it2) ∧
    map_Forall (λ _ c, is_Some (c !! "learning_rate")) (optim_configs s1) ∧
    s' = set_optim_configs (decayed (lr_decay s1) <$> optim_configs s1)
           (keep_best val_acc (print_summary train_acc val_acc
              (set_test_dataiter (reset it2) (set_train_dataiter (reset it1)
                 (set_val_acc_history (val_acc_history s1 ++ [val_acc])
                    (set_train_acc_history (train_acc_history s1 ++ [train_acc]) s1)))))).
Proof.
  intros (s1 & ta & va & s2 & Hb & He & Hd)%train_epoch_inv.
  apply evaluate_inv in He as (it1 & it2 & H1 & H2 & ->).
  apply decay_learning_rates_inv in Hd as [-> Hlr].
  assert (∀ v s, lr_decay (keep_best v s) = lr_decay s ∧
                 optim_configs (keep_best v s) = optim_configs s) as Hk
    by (intros; unfold keep_best; by case_match).
  assert (∀ a v s, lr_decay (print_summary a v s) = lr_decay s ∧
                   optim_configs (print_summary a v s) = optim_configs s) as Hp
    by (intros; unfold print_summary; by case_match).
  rewrite (proj2 (Hk _ _)), (proj2 (Hp _ _ _)) in Hlr.
  rewrite (proj1 (Hk _ _)), (proj2 (Hk _ _)), (proj1 (Hp _ _ _)), (proj2 (Hp _ _ _)).
  exists s1, ta, va, it1, it2. split_and!; [exact Hb | exact H1 | exact H2 | exact Hlr | reflexivity].
Qed.

Lemma run_epochs_S n s :
  run_epochs (S n) s =
    st ← run_epochs n s;
    train_epoch (getnumiterations (train_dataiter s) * num_epochs s) st n.
Proof.
  unfold run_epochs. rewrite seq_S, foldM_app. cbn.
  destruct (foldM _ _ (seq 0 n)); cbn; [|done]. by destruct (train_epoch _ _ _).
Qed.


Lemma train_epoch_effect ni s t e s' t' :
  train_epoch ni (s, t) e = Ok (s', t') →
  ∃ s1 train_acc val_acc,
    foldM (train_batch ni) (print (print_epoch e) s, t) (for_each (train_dataiter s)).1
      = Ok (s1, t') ∧
    epoch_effect e s s1 s' train_acc val_acc.
Proof.
  intros (s1 & ta & va & it1 & it2 & Hb & H1 & H2 & Hlr & ->)%train_epoch_summary.
  exists s1, ta, va. split; [done|].
  apply train_batches_frame in Hb as (Hsetup & Hstate & (ls & Hls & Hlen) & (out & Hout & Hsum) & _).
  pose proof (same_best_val_acc _ _ Hstate) as Hb1.
  pose proof (same_verbose _ _ Hsetup) as Hv1.
  destruct Hsetup, Hstate.
  rewrite keep_best_spec. unfold print_summary. simpl_solver.
  destruct (verbose s1) eqn:Hv; simpl_solver;
    destruct (bool_decide (best_val_acc s1 < va)) eqn:Hbest; simpl_solver;
    (split; simpl_solver;
     rewrite <-?Hb1, <-?Hv1, ?Hbest, ?Hv;
     [ split; simpl_solver; congruence
     | split; split; congruence
     | done
     | done
     | exists it1; split; [congruence | done]
     | exists it2; split; [congruence | done]
     | congruence
     | congruence
     | congruence
     | congruence
     | exists ls; split; congruence
     | split; [congruence | done]
     | exists out; split; [|done];
       rewrite Hout, <-?app_assoc, ?app_nil_r; congruence ]).
Qed.


Lemma run_epochs_0 s : run_epochs 0 s = Ok (s, 0%nat).
Proof. done. Qed.

(** Induction over the epochs of a run. *)
Lemma run_epochs_ind (P : nat → Solver → Prop) s :
  P 0%nat s →
  (∀ n s0 t s1 s' t' train_acc val_acc,
     run_epochs n s = Ok (s0, t) → run_epochs (S n) s = Ok (s', t') →
     same_setup s s0 → P n s0 →
     foldM (train_batch (getnumiterations (train_dataiter s) * num_epochs s))
       (print (print_epoch n) s0, t) (for_each (train_dataiter s0)).1 = Ok (s1, t') →
     epoch_effect n s0 s1 s' train_acc val_acc →
     P (S n) s') →
  ∀ n st, run_epochs n s = Ok st → P n st.1 ∧ same_setup s st.1.
Proof.
  intros H0' Hstep. induction n as [|n IH]; intros st Hrun.
  - rewrite run_epochs_0 in Hrun. simplify_eq. split; [done | apply same_setup_refl].
  - pose proof Hrun as Hrun'. rewrite run_epochs_S in Hrun.
    destruct (run_epochs n s) as [[s0 t]|] eqn:Hn; [|done]. cbn in Hrun.
    destruct st as [s' t']. destruct (IH _ eq_refl) as [HP Hsetup]. cbn in HP, Hsetup.
    apply train_epoch_effect in Hrun as (s1 & ta & va & Hb & He).
    split; [eauto|]. eapply same_setup_trans; [done | apply He].
Qed.

(** The runs of fewer epochs are defined too. *)
Lemma run_epochs_prefix s m n st :
  (m ≤ n)%nat → run_epochs n s = Ok st → ∃ st', run_epochs m s = Ok st'.
Proof.
  induction 1 as [|n Hle IH] in st |- *; [eauto|].
  rewrite run_epochs_S. destruct (run_epochs n s) eqn:Hn; [eauto | done].
Qed.

Lemma best_val_acc_monotone s m n st' st :
  (m ≤ n)%nat → run_epochs m s = Ok st' → run_epochs n s = Ok st →
  best_val_acc st'.1 ≤ best_val_acc st.1.
Proof.
  induction 1 as [|n Hle IH] in st |- *; intros Hm Hn.
  - assert (st = st') as -> by congruence. apply Qcle_refl.
  - rewrite run_epochs_S in Hn. destruct (run_epochs n s) as [[s0 t]|] eqn:Hn0; [|done].
    cbn in Hn. destruct st as [s1 t1].
    apply train_epoch_effect in Hn as (? & ? & va & _ & He).
    eapply Qcle_trans; [by eapply IH|]. cbn. rewrite (effect_best_val_acc _ _ _ _ _ _ He).
    case_bool_decide; [by apply Qclt_le_weak | apply Qcle_refl].
Qed.

Lemma best_val_acc_maximum s n st :
  run_epochs n s = Ok st →
  ∃ accs, val_acc_history st.1 = val_acc_history s ++ accs ∧ length accs = n ∧
    (∀ a, a ∈ best_val_acc s :: accs → a ≤ best_val_acc st.1) ∧
    best_val_acc st.1 ∈ best_val_acc s :: accs.
Proof.
  intros Hrun. eapply (run_epochs_ind (λ n s',
    ∃ accs, val_acc_history s' = val_acc_history s ++ accs ∧ length accs = n ∧
      (∀ a, a ∈ best_val_acc s :: accs → a ≤ best_val_acc s') ∧
      best_val_acc s' ∈ best_val_acc s :: accs)) in Hrun; [apply Hrun| |].
  - exists []. rewrite app_nil_r. split_and!; [done..| |by left].
    intros a ->%list_elem_of_singleton. apply Qcle_refl.
  - clear. intros n s0 t s1 s' t' ta va _ _ _ (accs & Hh & Hlen & Hub & Hin) _ He.
    exists (accs ++ [va]).
    rewrite (effect_val_acc_history _ _ _ _ _ _ He), (effect_best_val_acc _ _ _ _ _ _ He), Hh.
    split_and!.
    + by rewrite app_assoc.
    + rewrite length_app. cbn. lia.
    + intros a. rewrite app_comm_cons, elem_of_app, list_elem_of_singleton.
      intros [Ha| ->].
      * case_bool_decide as Hlt; [|by apply Hub].
        eapply Qcle_trans; [by apply Hub | by apply Qclt_le_weak].
      * case_bool_decide as Hlt; [apply Qcle_refl | by apply Qcnot_lt_le].
    + rewrite app_comm_cons, elem_of_app, list_elem_of_singleton.
      case_bool_decide; eauto.
Qed.


End epochs.


(** ** Properties of the training loop *)

Section training.

Context {tensor X shape I : Type} `{DataIter I X} `{Env tensor X shape}.
Implicit Types s : @Solver tensor shape I.

Lemma train_inv s s' :
  train s = Ok s' → ∃ st, run_epochs (num_epochs s) s = Ok st ∧ s' = swap_best st.1.
Proof. unfold train. intros Hs. inv_result Hs. simplify_eq. eauto. Qed.

(** C3. Across the epochs of one run that starts with [best_val_acc] at
    its initial value [0], [best_val_acc] never decreases, and after every
    completed epoch it is the maximum of [0] and of the accuracies
    appended to [val_acc_history] so far: it bounds them all and is one
    of them. *)
Theorem best_val_acc_running_maximum s m n st' st :
  best_val_acc s = 0 →
  (m ≤ n)%nat → run_epochs m s = Ok st' → run_epochs n s = Ok st →
  best_val_acc st'.1 ≤ best_val_acc st.1 ∧
  ∃ accs, val_acc_history st.1 = val_acc_history s ++ accs ∧ length accs = n ∧
    (∀ a, a ∈ 0 :: accs → a ≤ best_val_acc st.1) ∧ best_val_acc st.1 ∈ 0 :: accs.
Proof.
  intros H0' Hle Hm Hn. split; [by eapply best_val_acc_monotone|].
  rewrite <-H0'. by apply best_val_acc_maximum.
Qed.

(** C5. When [train] runs to completion on a solver as [_reset] left it
    and no validation accuracy of the run is strictly greater than [0],
    line 263 assigns the still empty [best_params] to [model.params]: the
    model is left without any parameter. *)
Theorem train_without_improvement_empties_params s s' :
  after_reset s → train s = Ok s' →
  Forall (λ a, ¬ 0 < a) (val_acc_history s') →
  params (model s') = ∅ ∧ params_values s' = ∅.
Proof.
  intros (_ & Hbest & Hparams & _ & _ & Hhist & _) (st & Hrun & ->)%train_inv Hall.
  assert (params (model (swap_best st.1)) = ∅) as Hempty; [|split; [done|]].
  - change (val_acc_history (swap_best st.1)) with (val_acc_history st.1) in Hall.
    eapply (run_epochs_ind (λ _ s0,
      Forall (λ a, ¬ 0 < a) (val_acc_history s0) →
      best_val_acc s0 = 0 ∧ best_params s0 = own_dict ∅)) in Hrun as [Hrun _].
    + unfold swap_best, best_params_dict. simpl_solver. by destruct (Hrun Hall) as [_ ->].
    + done.
    + clear -Hbest. intros n s0 t s1 s2 t' ta va _ _ _ IH _ He.
      rewrite (effect_val_acc_history _ _ _ _ _ _ He), (effect_best_val_acc _ _ _ _ _ _ He),
        (effect_best_params _ _ _ _ _ _ He).
      intros [Hall Hva]%Forall_app. rewrite Forall_singleton in Hva. destruct (IH Hall) as [H0' Hp].
      rewrite H0', (bool_decide_eq_false_2 _ Hva). by split.
  - unfold params_values, values_in. rewrite Hempty. apply omap_empty.
Qed.


(** C6. Every [_step] appends exactly one loss to [loss_history], and
    after a complete [train] on a solver as [_reset] left it the length of
    [loss_history] is [num_epochs] times the number of batches of a full
    pass over the training iterator. *)
Theorem loss_history_length {Hspec : DataIterSpec I X} s s' :
  after_reset s → train s = Ok s' →
  (∀ s1 batch s2, _step s1 batch = Ok s2 → ∃ l, loss_history s2 = loss_history s1 ++ [l]) ∧
  length (loss_history s') = (num_epochs s * getnumiterations (train_dataiter s))%nat.
Proof.
  intros (_ & _ & _ & Hloss & _ & _ & [it0 Hit0] & _) (st & Hrun & ->)%train_inv.
  split; [intros s1 batch s2 Hs; by apply _step_frame in Hs as (_ & _ & ? & _)|].
  change (loss_history (swap_best st.1)) with (loss_history st.1).
  generalize dependent (num_epochs s). intros n Hrun.
  eapply (run_epochs_ind (λ n s0,
    length (loss_history s0) = (n * getnumiterations (train_dataiter s))%nat ∧
    ∃ it, train_dataiter s0 = reset it ∧
          getnumiterations it = getnumiterations (train_dataiter s))) in Hrun as [[Hrun _] _];
    [done| |].
  - rewrite Hloss. split; [done|]. exists it0. by rewrite Hit0, getnumiterations_reset.
  - clear -Hspec. intros n s0 t s1 s2 t' ta va _ _ _ (Hlen & it & Hit & Hnum) _ He.
    destruct (effect_loss_history _ _ _ _ _ _ He) as (ls & -> & Hls).
    destruct (effect_train_dataiter _ _ _ _ _ _ He) as (it' & Hacc & ->).
    rewrite Hit in Hls, Hacc. rewrite full_pass in Hls. split.
    + rewrite length_app. lia.
    + exists it'. split; [done|].
      apply check_accuracy_iter in Hacc as [->| ->];
        by rewrite ?getnumiterations_for_each, getnumiterations_reset.
Qed.


(** C10. [_reset] sets [self.epoch] to [0] and nothing else assigns it:
    [init], [_step], any number of epochs and a whole [train] leave it as
    it was, and every epoch summary that [train] prints reports that one
    value, whichever epoch has just completed. *)
Theorem epoch_is_never_assigned s :
  epoch (_reset s) = 0%nat ∧
  (∀ s', init s = Ok s' → epoch s' = epoch s) ∧
  (∀ batch s', _step s batch = Ok s' → epoch s' = epoch s) ∧
  (∀ n st, run_epochs n s = Ok st → epoch st.1 = epoch s) ∧
  (∀ s', train s = Ok s' →
     epoch s' = epoch s ∧
     ∃ out, stdout s' = stdout s ++ out ∧
       summary_epochs out = if verbose s then replicate (num_epochs s) (epoch s) else []).
Proof.
  assert (∀ n st, run_epochs n s = Ok st →
    epoch st.1 = epoch s ∧
    ∃ out, stdout st.1 = stdout s ++ out ∧
      summary_epochs out = if verbose s then replicate n (epoch s) else []) as Hrun.
  { intros n st Hrun.
    eapply (run_epochs_ind (λ n s0, ∃ out, stdout s0 = stdout s ++ out ∧
      summary_epochs out = if verbose s then replicate n (epoch s) else [])) in Hrun
      as [Hout Hsetup].
    - split; [apply Hsetup | done].
    - exists []. rewrite app_nil_r. split; [done | by destruct (verbose s)].
    - clear. intros n s0 t s1 s2 t' ta va _ _ Hsetup (out & Hout & Hsum) _ He.
      destruct (effect_stdout _ _ _ _ _ _ He) as (out' & -> & Hsum').
      rewrite (same_verbose _ _ Hsetup), (same_epoch _ _ Hsetup), Hout.
      eexists. rewrite <-app_assoc. split; [done|]. unfold summary_epochs in *.
      rewrite !omap_app, Hsum, Hsum'. destruct (verbose s); [|done].
      by rewrite replicate_S_end. }
  split_and!.
  - done.
  - intros s' Hs. by apply init_frame in Hs as ([] & _).
  - intros batch s' Hs. by apply _step_frame in Hs as ([] & _).
  - intros n st Hs. by apply Hrun in Hs as [? _].
  - intros s' (st & Hs & ->)%train_inv. by apply Hrun in Hs.
Qed.

Lemma update_param_learning_rate (lr : Qc) grads s pw s' :
  (∀ h w dw c, c !! "learning_rate" = Some lr →
     (update_rule s h w dw c).2 !! "learning_rate" = Some lr) →
  map_Forall (λ _ c, c !! "learning_rate" = Some lr) (optim_configs s) →
  update_param grads s pw = Ok s' →
  map_Forall (λ _ c, c !! "learning_rate" = Some lr) (optim_configs s') ∧
  dom (optim_configs s') = dom (optim_configs s).
Proof.
  unfold update_param, getitem. intros Hupd Hall Hs.
  destruct (grads !! pw.1) as [dw|]; [|done]. cbn in Hs.
  destruct (optim_configs s !! pw.1) as [c|] eqn:Hc; [|done]. cbn in Hs.
  specialize (Hupd (store s) pw.2 dw c (Hall _ _ Hc)).
  destruct (update_rule s _ _ _ _) as [[h next_w] next_config].
  simplify_eq. simpl_solver. split.
  - by apply map_Forall_insert_2.
  - by apply dom_insert_lookup_L.
Qed.

Lemma print_loss_optim_configs ni t s s' :
  print_loss ni t s = Ok s' → optim_configs s' = optim_configs s.
Proof. unfold print_loss. intros; repeat case_match; by simplify_eq. Qed.

Lemma train_batches_learning_rate (lr : Qc) ni batches s t s' t' :
  (∀ h w dw c, c !! "learning_rate" = Some lr →
     (update_rule s h w dw c).2 !! "learning_rate" = Some lr) →
  map_Forall (λ _ c, c !! "learning_rate" = Some lr) (optim_configs s) →
  foldM (train_batch ni) (s, t) batches = Ok (s', t') →
  map_Forall (λ _ c, c !! "learning_rate" = Some lr) (optim_configs s') ∧
  dom (optim_configs s') = dom (optim_configs s).
Proof.
  intros Hupd Hall Hs.
  pose (P := λ s0 : @Solver tensor shape I,
    update_rule s0 = update_rule s ∧
    map_Forall (λ _ c, c !! "learning_rate" = Some lr) (optim_configs s0) ∧
    dom (optim_configs s0) = dom (optim_configs s)).
  eapply (foldM_inv (λ st, P st.1)) in Hs; [apply Hs| |by split_and!].
  clear -Hupd. intros [s0 t0] batch [s1 t1] _ HP Hs. cbn [fst snd] in *.
  unfold train_batch in Hs. cbn [fst snd] in Hs. inv_result Hs. simplify_eq.
  pose proof (print_loss_optim_configs _ _ _ _ E0) as Hcfg.
  apply print_loss_frame in E0 as (Hsetup & _).
  unfold P. rewrite (same_update_rule _ _ Hsetup), Hcfg. clear Hsetup Hcfg s1.
  unfold _step in E. destruct (grad_and_loss _ _) as [grad_arrays loss_value].
  eapply (foldM_inv P) in E; [done| |done].
  clear -Hupd. intros s2 pw s3 _ (Hrule & Hall & Hdom) Hs.
  rewrite <-Hrule in Hupd.
  pose proof (update_param_learning_rate _ _ _ _ _ Hupd Hall Hs) as [? ?].
  apply update_param_frame in Hs as (Hsetup & _).
  unfold P. rewrite (same_update_rule _ _ Hsetup). split_and!; [done | done | congruence].
Qed.

(** C2. When the update rule keeps the learning rate it finds in a
    config and every per-parameter config starts at the learning rate
    [lr0], then after [n] completed epochs every parameter's config holds
    the learning rate [lr0 * lr_decay ^ n], and after [train] the learning
    rate [lr0 * lr_decay ^ num_epochs]; no config is added or lost. *)
Theorem learning_rate_after_epochs s (lr0 : Qc) :
  (∀ h w dw c lr, c !! "learning_rate" = Some lr →
     (update_rule s h w dw c).2 !! "learning_rate" = Some lr) →
  map_Forall (λ _ c, c !! "learning_rate" = Some lr0) (optim_configs s) →
  (∀ n st, run_epochs n s = Ok st →
     dom (optim_configs st.1) = dom (optim_configs s) ∧
     map_Forall (λ _ c, c !! "learning_rate" = Some (lr0 * lr_decay s ^ n))
       (optim_configs st.1)) ∧
  (∀ s', train s = Ok s' →
     dom (optim_configs s') = dom (optim_configs s) ∧
     map_Forall (λ _ c, c !! "learning_rate" = Some (lr0 * lr_decay s ^ num_epochs s))
       (optim_configs s')).
Proof.
  intros Hupd Hall.
  assert (∀ n st, run_epochs n s = Ok st →
     dom (optim_configs st.1) = dom (optim_configs s) ∧
     map_Forall (λ _ c, c !! "learning_rate" = Some (lr0 * lr_decay s ^ n))
       (optim_configs st.1)) as Hrun.
  { intros n st Hrun.
    eapply (run_epochs_ind (λ n s0,
      dom (optim_configs s0) = dom (optim_configs s) ∧
      map_Forall (λ _ c, c !! "learning_rate" = Some (lr0 * lr_decay s ^ n))
        (optim_configs s0))) in Hrun as [Hrun _]; [done| |].
    - split; [done|]. cbn. by rewrite Qcmult_1_r.
    - clear -Hupd. intros n s0 t s1 s2 t' ta va _ _ Hsetup [Hdom Hlr] Hb He.
      destruct (effect_optim_configs _ _ _ _ _ _ He) as [-> _].
      apply (train_batches_learning_rate (lr0 * lr_decay s ^ n)) in Hb as [Hlr1 Hdom1].
      + simpl_solver. split; [by rewrite dom_fmap_L, Hdom1|].
        intros p c. rewrite lookup_fmap. intros (c1 & Hc1 & ->)%fmap_Some.
        unfold decayed. rewrite lookup_alter_eq, (Hlr1 _ _ Hc1). cbn.
        rewrite (same_lr_decay _ _ Hsetup). f_equal. ring.
      + simpl_solver. rewrite (same_update_rule _ _ Hsetup). eauto.
      + done. }
  split; [done|]. intros s' (st & Hs & ->)%train_inv. by apply Hrun in Hs.
Qed.


(** *** What line 263 restores *)

(** What line 263 restores: the dict of addresses that [model.params] was
    at the end of the first epoch that reached the best validation
    accuracy. Whether the values are those of that epoch depends on what
    was written into these arrays since. *)
Lemma train_restores_best_addresses s s' :
  after_reset s → train s = Ok s' → 0 < best_val_acc s' →
  ∃ k st, (k < num_epochs s)%nat ∧ run_epochs (S k) s = Ok st ∧
    val_acc_history st.1 !! k = Some (best_val_acc s') ∧
    params (model s') = params (model st.1).
Proof.
  intros (_ & Hbest & Hparams & _ & _ & Hhist & _) (st & Hrun & ->)%train_inv Hpos.
  change (best_val_acc (swap_best st.1)) with (best_val_acc st.1) in *.
  eapply (run_epochs_ind (λ n s0,
    length (val_acc_history s0) = n ∧
    ((best_val_acc s0 = 0 ∧ best_params s0 = own_dict ∅) ∨
     ∃ k st, (k < n)%nat ∧ run_epochs (S k) s = Ok st ∧
       val_acc_history st.1 !! k = Some (best_val_acc s0) ∧
       best_params s0 = own_dict (params (model st.1))))) in Hrun as [[_ Hrun] _].
  - destruct Hrun as [[H0' _]|(k & stk & Hk & Hrunk & Hacc & Hbp)].
    + rewrite H0' in Hpos. by apply Qclt_not_eq in Hpos.
    + exists k, stk. split_and!; try done.
      unfold swap_best, best_params_dict. simpl_solver. by rewrite Hbp.
  - rewrite Hhist. split; [done|]. by left.
  - clear. intros n s0 t s1 s2 t' ta va _ Hrun' _ [Hlen IH] _ He.
    rewrite (effect_val_acc_history _ _ _ _ _ _ He), (effect_best_val_acc _ _ _ _ _ _ He),
      (effect_best_params _ _ _ _ _ _ He).
    split; [rewrite length_app; cbn; lia|].
    case_bool_decide as Hlt.
    + right. exists n, (s2, t'). split_and!; [lia | done | |].
      * cbn. rewrite (effect_val_acc_history _ _ _ _ _ _ He).
        by rewrite lookup_app_r, Hlen, Nat.sub_diag by lia.
      * cbn. by rewrite (effect_params _ _ _ _ _ _ He).
    + destruct IH as [?|(k & stk & Hk & Hrunk & Hacc & Hbp)]; [by left|].
      right. exists k, stk. split_and!; [lia | done..].
Qed.

Lemma store_grows_refl s : store_grows s s.
Proof. by split_and!. Qed.

Lemma store_grows_trans s1 s2 s3 : store_grows s1 s2 → store_grows s2 s3 → store_grows s1 s3.
Proof. intros (? & ? & ?) (? & ? & ?). split_and!; [congruence | by etrans | auto]. Qed.

Lemma values_in_prefix (h h' : list tensor) (d : gmap string loc) :
  h `prefix_of` h' → map_Forall (λ _ l, (l < length h)%nat) d →
  values_in h' d = values_in h d.
Proof.
  intros Hpre Hd. unfold values_in. apply map_eq. intros k. rewrite !lookup_omap.
  destruct (d !! k) as [l|] eqn:Hl; [cbn|done].
  destruct (lookup_lt_is_Some_2 h l (Hd _ _ Hl)) as [v Hv].
  by rewrite Hv, (prefix_lookup_Some _ _ _ _ Hv Hpre).
Qed.

Lemma update_param_store grads s pw s' :
  allocating (update_rule s) → update_param grads s pw = Ok s' → store_grows s s'.
Proof.
  unfold update_param. intros Hrule Hs. inv_result Hs.
  specialize (Hrule (store s) pw.2 a a0).
  destruct (update_rule s _ _ _ _) as [[h next_w] next_config]. cbn in Hrule.
  destruct Hrule as [Hpre Hnext]. simplify_eq.
  unfold store_grows, params_allocated. simpl_solver.
  split_and!; [done..|]. intros Hall. apply map_Forall_insert_2; [done|].
  intros p l Hl. apply Hall in Hl. apply prefix_length in Hpre. cbn in *. lia.
Qed.

Lemma foldM_store_grows {B : Type} (f : @Solver tensor shape I → B → result Solver) l :
  (∀ s b s', allocating (update_rule s) → f s b = Ok s' → store_grows s s') →
  ∀ s s', allocating (update_rule s) → foldM f s l = Ok s' → store_grows s s'.
Proof.
  intros Hf. induction l as [|b l IH]; intros s s' Hrule Hs; cbn in Hs.
  - simplify_eq. apply store_grows_refl.
  - inv_result Hs. pose proof (Hf _ _ _ Hrule E) as Hg.
    eapply store_grows_trans; [done|]. apply IH; [|done].
    destruct Hg as [-> _]. done.
Qed.

Lemma _step_store s batch s' :
  allocating (update_rule s) → _step s batch = Ok s' → store_grows s s'.
Proof.
  unfold _step. intros Hrule Hs. destruct (grad_and_loss _ _) as [grad_arrays loss_value].
  eapply foldM_store_grows in Hs; [exact Hs| |exact Hrule].
  intros; by eapply update_param_store.
Qed.

Lemma train_batches_store ni batches s t s' t' :
  allocating (update_rule s) →
  foldM (train_batch ni) (s, t) batches = Ok (s', t') → store_grows s s'.
Proof.
  revert s t. induction batches as [|b batches IH]; intros s t Hrule Hs; cbn in Hs.
  - simplify_eq. apply store_grows_refl.
  - inv_result Hs. destruct a as [s1 t1]. unfold train_batch in E. cbn [fst snd] in E.
    inv_result E. simplify_eq.
    pose proof (_step_store _ _ _ Hrule E0) as Hg.
    assert (store_grows a s1) as Hg'.
    { revert E1. unfold print_loss. intros; repeat case_match; simplify_eq;
        unfold store_grows, params_allocated; by split_and!. }
    eapply store_grows_trans; [by eapply store_grows_trans|].
    eapply IH; [|done]. destruct Hg as [Hr _], Hg' as [Hr' _]. by rewrite Hr', Hr.
Qed.

(** With an update rule that leaves the arrays it is given alone, the
    model comes out of [train] with the values its parameters had at the
    end of the first epoch that reached the best validation accuracy. *)
Lemma train_restores_best_values s s' :
  after_reset s → params_allocated s → allocating (update_rule s) →
  train s = Ok s' → 0 < best_val_acc s' →
  ∃ k st, (k < num_epochs s)%nat ∧ run_epochs (S k) s = Ok st ∧
    val_acc_history st.1 !! k = Some (best_val_acc s') ∧
    params_values s' = params_values st.1.
Proof.
  intros (_ & Hbest & Hparams & _ & _ & Hhist & _) Halloc Hrule
    (st & Hrun & ->)%train_inv Hpos.
  change (best_val_acc (swap_best st.1)) with (best_val_acc st.1) in *.
  eapply (run_epochs_ind (λ n s0,
    length (val_acc_history s0) = n ∧ params_allocated s0 ∧
    ((best_val_acc s0 = 0 ∧ best_params s0 = own_dict ∅) ∨
     ∃ k st, (k < n)%nat ∧ run_epochs (S k) s = Ok st ∧
       val_acc_history st.1 !! k = Some (best_val_acc s0) ∧
       best_params s0 = own_dict (params (model st.1)) ∧
       params_allocated st.1 ∧ store st.1 `prefix_of` store s0))) in Hrun
    as [(_ & _ & Hrun) _].
  - destruct Hrun as [[H0' _]|(k & stk & Hk & Hrunk & Hacc & Hbp & Hwf & Hpre)].
    + rewrite H0' in Hpos. by apply Qclt_not_eq in Hpos.
    + exists k, stk. split_and!; try done.
      unfold params_values, swap_best, best_params_dict. simpl_solver. rewrite Hbp.
      by apply values_in_prefix.
  - rewrite Hhist. split_and!; [done..|]. by left.
  - clear -Hrule. intros n s0 t s1 s2 t' ta va _ Hrun' Hsetup (Hlen & Hwf & IH) Hb He.
    apply train_batches_store in Hb as (_ & Hpre & Hwf1);
      [|simpl_solver; by rewrite (same_update_rule _ _ Hsetup)].
    assert (params_allocated s2) as Hwf2.
    { unfold params_allocated.
      rewrite (effect_store _ _ _ _ _ _ He), (effect_params _ _ _ _ _ _ He). by apply Hwf1. }
    rewrite (effect_val_acc_history _ _ _ _ _ _ He), (effect_best_val_acc _ _ _ _ _ _ He),
      (effect_best_params _ _ _ _ _ _ He), (effect_store _ _ _ _ _ _ He).
    split_and!; [rewrite length_app; cbn; lia | done |].
    case_bool_decide as Hlt.
    + right. exists n, (s2, t'). split_and!; [lia | done | | | done |].
      * cbn. rewrite (effect_val_acc_history _ _ _ _ _ _ He).
        by rewrite lookup_app_r, Hlen, Nat.sub_diag by lia.
      * cbn. by rewrite (effect_params _ _ _ _ _ _ He).
      * cbn. by rewrite (effect_store _ _ _ _ _ _ He).
    + destruct IH as [?|(k & stk & Hk & Hrunk & Hacc & Hbp & Hwfk & Hprek)]; [by left|].
      right. exists k, stk. split_and!; [lia | done.. |]. by etrans.
Qed.


End training.

(** ** Accuracy evaluation *)

Section accuracy.

Context {tensor X shape I : Type} `{DataIter I X} `{Env tensor X shape}.
Implicit Types s : @Solver tensor shape I.

(** C7. [check_accuracy] evaluates over the sub-iterator
    [getsubiter(num_samples)], leaving [dataiter] as it was, when
    [num_samples] is given and smaller than [num_data]; in every other
    case it evaluates over [dataiter] itself. *)
Theorem check_accuracy_subsampling s dataiter (num_samples : option nat) batch_size :
  (∀ n, num_samples = Some n → (n < num_data dataiter)%nat →
     check_accuracy s dataiter num_samples batch_size =
       (λ r, (r.1, dataiter)) <$> accuracy_over s (getsubiter dataiter n)) ∧
  ((num_samples = None ∨ ∃ n, num_samples = Some n ∧ (num_data dataiter ≤ n)%nat) →
     check_accuracy s dataiter num_samples batch_size = accuracy_over s dataiter).
Proof.
  unfold check_accuracy. split.
  - intros n -> Hn. rewrite bool_decide_eq_true_2 by done.
    by destruct (accuracy_over s (getsubiter dataiter n)) as [[acc it]|].
  - intros [->|(n & -> & Hn)]; [done|]. rewrite bool_decide_eq_false_2 by lia. done.
Qed.

(** C8. Over an iterator that yields at least one batch, with a positive
    batch size, and a model that returns one row of scores, not empty,
    for every label of a batch, the loop of lines 199-205, which is what
    [check_accuracy] runs on the iterator it has chosen, returns the
    number of examples whose label is the first index of the maximum of
    their row of scores, divided by the number of batches times the
    iterator's [batch_size]; the ratio lies between [0] and [1]. *)
Theorem accuracy_over_value {Hspec : DataIterSpec I X} s it batches after :
  for_each it = (batches, after) → batches ≠ [] → (0 < dataiter_batch_size it)%nat →
  (∀ b, b ∈ batches → Forall (λ row, row ≠ []) (forward (params_values s) (data b))) →
  (∀ b, b ∈ batches → length (forward (params_values s) (data b)) = length (label b)) →
  let matches :=
    sum_list ((λ b, correct_predictions (forward (params_values s) (data b)) (label b))
                <$> batches) in
  let seen := (length batches * dataiter_batch_size it)%nat in
  ∃ acc, accuracy_over s it = Ok (acc, after) ∧
         (∀ batch_size, check_accuracy s it None batch_size = Ok (acc, after)) ∧
         acc = Q2Qc (Z.of_nat matches # Pos.of_nat seen) ∧ 0 ≤ acc ≤ 1.
Proof.
  intros Hfor Hne Hbs Hrows Hlabels matches seen.
  assert (∀ bs a n, (∀ b, b ∈ bs → b ∈ batches) →
    foldM (λ (c : nat * nat) each_batch,
             n ← count_correct (forward (params_values s) (data each_batch)) (label each_batch);
             Ok (c.1 + n, c.2 + dataiter_batch_size it)%nat) (a, n) bs =
    Ok (a + sum_list ((λ b, correct_predictions (forward (params_values s) (data b)) (label b))
                        <$> bs),
        n + length bs * dataiter_batch_size it)%nat) as Hloop.
  { induction bs as [|b bs IH]; intros a n Hin; cbn.
    - by rewrite !Nat.add_0_r.
    - rewrite count_correct_spec by (first [apply Hrows | apply Hlabels]; apply Hin; left).
      cbn. rewrite IH by (intros; apply Hin; by right). do 2 f_equal; lia. }
  assert (matches ≤ seen)%nat as Hle.
  { unfold matches, seen. clear Hloop Hne.
    assert (∀ b, b ∈ batches → (length (label b) ≤ dataiter_batch_size it)%nat) as Hlen.
    { intros b Hb. apply batch_length. by rewrite Hfor. }
    clear Hfor Hrows Hlabels. induction batches as [|b bs IH]; cbn; [done|].
    pose proof (correct_predictions_le (forward (params_values s) (data b)) (label b)).
    pose proof (Hlen b ltac:(left)).
    specialize (IH ltac:(intros; apply Hlen; by right)). lia. }
  assert (0 < seen)%nat as Hpos.
  { unfold seen. destruct batches; [done|]. cbn. lia. }
  assert (accuracy_over s it = Ok (Q2Qc (Z.of_nat matches # Pos.of_nat seen), after)) as Hacc.
  { unfold accuracy_over. rewrite Hfor, Hloop by done. cbn.
    unfold float_div. rewrite bool_decide_eq_false_2 by (fold seen; lia). done. }
  eexists. split_and!; [exact Hacc | done | done | by apply Q2Qc_fraction_range..].
Qed.

End accuracy.

(** ** Construction *)

Section construction.

Context {tensor X shape I : Type} `{DataIter I X} `{Env tensor X shape}.
Implicit Types s : @Solver tensor shape I.
Implicit Types (h : list tensor) (m : @Model shape) (train_it test_it : I).

Lemma lookup_foldr_delete (l : list string) (m : gmap string kwval) k :
  foldr delete m l !! k = if decide (k ∈ l) then None else m !! k.
Proof.
  induction l as [|k' l IH]; cbn.
  - by rewrite decide_False by apply not_elem_of_nil.
  - destruct (decide (k = k')) as [->|Hne].
    + rewrite lookup_delete_eq. by rewrite decide_True by left.
    + rewrite lookup_delete_ne by done. rewrite IH.
      destruct (decide (k ∈ l)) as [Hin|Hin].
      * by rewrite decide_True by by right.
      * rewrite decide_False; [done|]. by intros [?|?]%elem_of_cons.
Qed.

Lemma lookup_unpacked kwargs k :
  unpacked kwargs !! k = if decide (k ∈ recognized) then None else kwargs !! k.
Proof.
  unfold unpacked. rewrite lookup_foldr_delete.
  destruct (decide (k ∈ recognized)) as [Hin|Hin].
  - by rewrite decide_True by by apply elem_of_reverse.
  - rewrite decide_False; [done|]. by rewrite elem_of_reverse.
Qed.

Lemma unpacked_empty kwargs :
  unpacked kwargs = ∅ ↔ ∀ k, is_Some (kwargs !! k) → k ∈ recognized.
Proof.
  split.
  - intros Hempty k Hk. pose proof (lookup_unpacked kwargs k) as Hl.
    rewrite Hempty, lookup_empty in Hl. case_decide; [done|].
    rewrite <-Hl in Hk. by destruct Hk.
  - intros Hall. apply map_eq. intros k. rewrite lookup_unpacked, lookup_empty.
    case_decide as Hk; [done|]. destruct (kwargs !! k) eqn:Hkw; [|done].
    destruct Hk. apply Hall. by rewrite Hkw.
Qed.

Lemma __init___unfold h out m train_it test_it kwargs :
  __init__ h out m train_it test_it kwargs =
  if bool_decide (0 < size (unpacked kwargs))%nat then
    Raise (ValueError (Unrecognized_arguments (map_to_list (unpacked kwargs)).*1))
  else
    update_rule ← as_str "update_rule" (default (KStr "sgd") (kwargs !! "update_rule"));
    match optim update_rule with
    | None => Raise (ValueError (Invalid_update_rule update_rule))
    | Some update_rule =>
        init_rule ← as_str "init_rule" (default (KStr "xavier") (kwargs !! "init_rule"));
        match init_module init_rule with
        | None => Raise (ValueError (Invalid_init_rule init_rule))
        | Some init_rule =>
            init_config ← as_dict "init_config" (default (KDict ∅) (kwargs !! "init_config"));
            optim_config ← as_dict "optim_config" (default (KDict ∅) (kwargs !! "optim_config"));
            lr_decay ← as_float "lr_decay" (default (KFloat 1) (kwargs !! "lr_decay"));
            batch_size ← as_int "batch_size" (default (KInt 100) (kwargs !! "batch_size"));
            num_epochs ← as_int "num_epochs" (default (KInt 10) (kwargs !! "num_epochs"));
            print_every ← as_int "print_every" (default (KInt 10) (kwargs !! "print_every"));
            verbose ← as_bool "verbose" (default (KBool true) (kwargs !! "verbose"));
            Ok (_reset (mkSolver h m train_it test_it init_rule init_config
                          update_rule optim_config lr_decay batch_size num_epochs print_every
                          verbose 0 0 (own_dict ∅) [] [] [] ∅ ∅ out))
        end
    end.
Proof.
  unfold __init__, pop, unpacked. cbn [recognized reverse rev_append foldr].
  rewrite !lookup_delete_ne by done. reflexivity.
Qed.

Lemma rule_name_as_str k d kwargs name :
  rule_name k d kwargs = Some name →
  as_str k (default (KStr d) (kwargs !! k)) = Ok name.
Proof.
  unfold rule_name. destruct (kwargs !! k) as [[]|]; cbn; congruence.
Qed.

Lemma as_str_rule_name k d kwargs name :
  as_str k (default (KStr d) (kwargs !! k)) = Ok name →
  rule_name k d kwargs = Some name.
Proof.
  unfold rule_name. destruct (kwargs !! k) as [[]|]; cbn; congruence.
Qed.

(** C9, amended. A keyword outside the recognized options makes
    [__init__] fail with [UnrecognizedOption]; when every keyword is
    recognized, an [update_rule] or [init_rule] name that does not resolve
    makes it fail with [UnknownRule]; and [__init__] succeeds only when
    every keyword is recognized and both names resolve. *)
Theorem construction_errors h out m train_it test_it kwargs :
  ((∃ k, is_Some (kwargs !! k) ∧ k ∉ recognized) →
     ∃ e, __init__ h out m train_it test_it kwargs = Raise e ∧ UnrecognizedOption e) ∧
  ((∀ k, is_Some (kwargs !! k) → k ∈ recognized) →
     ∀ u i, rule_name "update_rule" "sgd" kwargs = Some u →
            rule_name "init_rule" "xavier" kwargs = Some i →
            optim u = None ∨ init_module i = None →
     ∃ e, __init__ h out m train_it test_it kwargs = Raise e ∧ UnknownRule e) ∧
  (∀ s, __init__ h out m train_it test_it kwargs = Ok s →
     (∀ k, is_Some (kwargs !! k) → k ∈ recognized) ∧
     ∃ u i, rule_name "update_rule" "sgd" kwargs = Some u ∧
            rule_name "init_rule" "xavier" kwargs = Some i ∧
            is_Some (optim u) ∧ is_Some (init_module i)).
Proof.
  split_and!.
  - intros (k & Hk & Hnot). rewrite __init___unfold, bool_decide_eq_true_2.
    + eexists. split; [done|]. by eexists.
    + assert (size (unpacked kwargs) ≠ 0%nat); [|lia].
      rewrite map_size_non_empty_iff, unpacked_empty. naive_solver.
  - intros Hall u i Hu Hi Hbogus. rewrite __init___unfold, bool_decide_eq_false_2.
    + rewrite (rule_name_as_str _ _ _ _ Hu). cbn.
      destruct (optim u) as [f|] eqn:Hf.
      * destruct Hbogus as [?|Hbogus]; [done|].
        rewrite (rule_name_as_str _ _ _ _ Hi). cbn. rewrite Hbogus.
        eexists. split; [done|]. exists i. by right.
      * eexists. split; [done|]. exists u. by left.
    + apply unpacked_empty in Hall. rewrite Hall, map_size_empty. lia.
  - intros s Hs. rewrite __init___unfold in Hs. case_bool_decide as Hsize; [done|]. split.
    + apply unpacked_empty. apply map_size_empty_iff. lia.
    + destruct (as_str "update_rule" _) as [u|] eqn:Hu; [|done]. cbn in Hs.
      destruct (optim u) as [f|] eqn:Hf; [|done].
      destruct (as_str "init_rule" _) as [i|] eqn:Hi; [|done]. cbn in Hs.
      destruct (init_module i) as [g|] eqn:Hg; [|done].
      exists u, i. rewrite Hf, Hg.
      split_and!; [by apply as_str_rule_name | by apply as_str_rule_name | done | done].
Qed.

Lemma after_reset__reset s : after_reset (_reset s).
Proof. unfold after_reset. cbn. split_and!; eauto. Qed.

Lemma after_reset_init s s' : after_reset s → init s = Ok s' → after_reset s'.
Proof.
  intros (? & ? & ? & ? & ? & ? & [it1 ?] & [it2 ?] & Hcfg) (Hsetup & Hstate & ? & Hcfg' & _)%init_frame.
  pose proof (same_optim_config _ _ Hsetup) as Ho.
  pose proof (same_param_configs _ _ Hsetup) as Hp.
  destruct Hsetup, Hstate.
  unfold after_reset. split_and!; try congruence.
  - exists it1. congruence.
  - exists it2. congruence.
  - by rewrite Hcfg', Ho, Hp.
Qed.

Lemma after_reset___init__ h out m train_it test_it kwargs s :
  __init__ h out m train_it test_it kwargs = Ok s → after_reset s.
Proof.
  rewrite __init___unfold. intros Hs. case_bool_decide; [done|].
  repeat (inv_result Hs; repeat case_match; try done).
  simplify_eq. apply after_reset__reset.
Qed.


Lemma __init___rules h out m train_it test_it kwargs s :
  __init__ h out m train_it test_it kwargs = Ok s →
  ∃ u i, rule_name "update_rule" "sgd" kwargs = Some u ∧
         rule_name "init_rule" "xavier" kwargs = Some i ∧
         optim u = Some (update_rule s) ∧ init_module i = Some (init_rule s).
Proof.
  rewrite __init___unfold. intros Hs. case_bool_decide; [done|].
  destruct (as_str "update_rule" _) as [u|] eqn:Hu; [|done]. cbn in Hs.
  destruct (optim u) as [f|] eqn:Hf; [|done].
  destruct (as_str "init_rule" _) as [i|] eqn:Hi; [|done]. cbn in Hs.
  destruct (init_module i) as [g|] eqn:Hg; [|done].
  exists u, i. rewrite Hf, Hg. 
  repeat (inv_result Hs; repeat case_match; try done). simplify_eq. 
  split_and!; [by apply as_str_rule_name | by apply as_str_rule_name | done | done].
Qed.

(** A solver built by [__init__] and [init]. *)
Lemma constructed h out m train_it test_it kwargs s0 s :
  __init__ h out m train_it test_it kwargs = Ok s0 → init s0 = Ok s →
  after_reset s ∧
  ∃ u, rule_name "update_rule" "sgd" kwargs = Some u ∧ optim u = Some (update_rule s).
Proof.
  intros H0' Hi. split.
  - eapply after_reset_init; [by eapply after_reset___init__ | done].
  - apply __init___rules in H0' as (u & _ & Hu & _ & Hf & _). exists u. split; [done|].
    apply init_frame in Hi as (Hsetup & _). by rewrite (same_update_rule _ _ Hsetup).
Qed.

End construction.

(** ** Further properties of construction *)

Section construction_properties.

Context {tensor X shape I : Type} `{DataIter I X} `{Env tensor X shape}.
Implicit Types s : @Solver tensor shape I.
Implicit Types (h : list tensor) (m : @Model shape) (train_it test_it : I).

(** X1. A solver that [__init__] returns holds, for every option, the
    keyword argument given or else the default of lines 87-96; it shares
    the model and its arrays with the caller without initializing any
    parameter, has restarted both iterators, and holds for every name of
    [model.param_configs] the optimizer and the initializer configs. *)
Theorem __init___options h out m train_it test_it kwargs s :
  __init__ h out m train_it test_it kwargs = Ok s →
  store s = h ∧ model s = m ∧ stdout s = out ∧
  train_dataiter s = reset train_it ∧ test_dataiter s = reset test_it ∧
  default (KDict ∅) (kwargs !! "init_config") = KDict (init_config s) ∧
  default (KDict ∅) (kwargs !! "optim_config") = KDict (optim_config s) ∧
  as_float "lr_decay" (default (KFloat 1) (kwargs !! "lr_decay")) = Ok (lr_decay s) ∧
  default (KInt 100) (kwargs !! "batch_size") = KInt (batch_size s) ∧
  default (KInt 10) (kwargs !! "num_epochs") = KInt (num_epochs s) ∧
  default (KInt 10) (kwargs !! "print_every") = KInt (print_every s) ∧
  default (KBool true) (kwargs !! "verbose") = KBool (verbose s) ∧
  optim_configs s = (λ _, optim_config s) <$> param_configs m ∧
  init_configs s = (λ _, init_config s) <$> param_configs m.
Proof.
  rewrite __init___unfold. intros Hs. case_bool_decide; [done|].
  destruct (as_str "update_rule" _) as [u|]; [|done]. cbn in Hs.
  destruct (optim u) as [f|]; [|done].
  destruct (as_str "init_rule" _) as [i|]; [|done]. cbn in Hs.
  destruct (init_module i) as [g|]; [|done].
  destruct (default (KDict ∅) (kwargs !! "init_config")) as [| ic | | |]; try done.
  destruct (default (KDict ∅) (kwargs !! "optim_config")) as [| oc | | |]; try done.
  cbn in Hs. destruct (as_float "lr_decay" _) as [d|]; [|done]. cbn in Hs.
  destruct (default (KInt 100) (kwargs !! "batch_size")) as [| | | bs |]; try done.
  destruct (default (KInt 10) (kwargs !! "num_epochs")) as [| | | ne |]; try done.
  destruct (default (KInt 10) (kwargs !! "print_every")) as [| | | pe |]; try done.
  destruct (default (KBool true) (kwargs !! "verbose")) as [| | | | v]; try done.
  cbn in Hs. injection Hs as <-. cbn. by destruct m.
Qed.

(** A keyword value of the wrong type raises nothing but [TypeError]. *)
Ltac type_error E :=
  unfold as_str, as_dict, as_float, as_int, as_bool in E; repeat case_match; simplify_eq.

(** X2. The [ValueError] of line 101 names the keywords given that are
    not options, each one once, and no other keyword. *)
Theorem unrecognized_arguments_listed h out m train_it test_it kwargs extra :
  __init__ h out m train_it test_it kwargs = Raise (ValueError (Unrecognized_arguments extra)) →
  extra ≠ [] ∧ NoDup extra ∧
  ∀ k, k ∈ extra ↔ is_Some (kwargs !! k) ∧ k ∉ recognized.
Proof.
  rewrite __init___unfold. case_bool_decide as Hsize.
  - intros [= <-]. split_and!.
    + intros Hnil. apply (f_equal length) in Hnil.
      rewrite length_fmap, length_map_to_list in Hnil. cbn [length] in Hnil. lia.
    + apply NoDup_fst_map_to_list.
    + intros k. rewrite list_elem_of_fmap. split.
      * intros ([k' v] & -> & Hk%elem_of_map_to_list). cbn.
        rewrite lookup_unpacked in Hk. case_decide; [done|]. by rewrite Hk.
      * intros [[v Hv] Hk]. exists (k, v). split; [done|].
        apply elem_of_map_to_list. rewrite lookup_unpacked. by rewrite decide_False.
  - intros Hs. exfalso.
    destruct (as_str "update_rule" _) as [u|] eqn:E;
      [|injection Hs as ->; type_error E].
    cbn [mbind result_bind] in Hs. destruct (optim u); [|done].
    destruct (as_str "init_rule" _) as [i|] eqn:E0;
      [|injection Hs as ->; type_error E0].
    cbn [mbind result_bind] in Hs. destruct (init_module i); [|done].
    repeat (match type of Hs with context [mbind _ ?r] =>
              let E := fresh "E" in
              destruct r eqn:E; cbn [mbind result_bind] in Hs;
                [|injection Hs as ->; type_error E]
            end).
    done.
Qed.

(** X3. With recognized keywords only, the update rule is resolved first:
    a name that [optim] does not have raises [Invalid update_rule] with
    that name, whatever [init_rule] is; the initializer is resolved next,
    and a name that [init] does not have raises [Invalid init_rule]. *)
Theorem rules_resolved_in_order h out m train_it test_it kwargs u :
  (∀ k, is_Some (kwargs !! k) → k ∈ recognized) →
  rule_name "update_rule" "sgd" kwargs = Some u →
  (optim u = None →
     __init__ h out m train_it test_it kwargs = Raise (ValueError (Invalid_update_rule u))) ∧
  (∀ i, is_Some (optim u) → rule_name "init_rule" "xavier" kwargs = Some i →
        init_module i = None →
     __init__ h out m train_it test_it kwargs = Raise (ValueError (Invalid_init_rule i))).
Proof.
  intros Hall Hu. rewrite __init___unfold, bool_decide_eq_false_2.
  2: { apply unpacked_empty in Hall. rewrite Hall, map_size_empty. lia. }
  rewrite (rule_name_as_str _ _ _ _ Hu). cbn [mbind result_bind]. split.
  - by intros ->.
  - intros i [f ->] Hi Hnone. rewrite (rule_name_as_str _ _ _ _ Hi). cbn [mbind result_bind].
    by rewrite Hnone.
Qed.

End construction_properties.

(** ** Further properties of [init] *)

Section init_properties.

Context {tensor X shape I : Type} `{DataIter I X} `{Env tensor X shape}.
Implicit Types s : @Solver tensor shape I.

Lemma init_loop l : NoDup l.*1 → ∀ s,
  creating (init_rule s) →
  (∀ nc, nc ∈ l → is_Some (init_configs s !! nc.1)) →
  ∃ s', foldM init_param s l = Ok s' ∧
    store s `prefix_of` store s' ∧
    (∀ name, name ∉ l.*1 → params (model s') !! name = params (model s) !! name) ∧
    (∀ name sh, (name, sh) ∈ l → ∃ c h a,
        init_configs s !! name = Some c ∧ store s `prefix_of` h ∧
        a = (init_rule s h sh c).2 ∧ params (model s') !! name = Some a ∧
        (length (store s) ≤ a)%nat ∧ is_Some (store s' !! a) ∧
        store s' !! a = (init_rule s h sh c).1 !! a) ∧
    (∀ n1 n2 a, n1 ∈ l.*1 → n2 ∈ l.*1 →
        params (model s') !! n1 = Some a → params (model s') !! n2 = Some a → n1 = n2).
Proof.
  induction l as [|[name sh] l IH]; intros Hnd s Hrule Hcfg.
  - exists s. cbn. split_and!; [done | done | done | |].
    + by intros ? ? ?%elem_of_nil.
    + by intros ? ? ? ?%elem_of_nil.
  - rewrite fmap_cons in Hnd. apply NoDup_cons in Hnd as [Hname Hnd]. cbn [fst] in Hname.
    destruct (Hcfg (name, sh)) as [c Hc]; [left|]. cbn [fst] in Hc.
    destruct (Hrule (store s) sh c) as [Hpre1 [Hlo1 Hhi1]].
    destruct (init_rule s (store s) sh c) as [h1 a1] eqn:Hcall. cbn [fst snd] in *.
    pose (s1 := set_params (<[name := a1]> (params (model s))) (set_store h1 s)).
    assert (init_param s (name, sh) = Ok s1) as Hs1.
    { unfold init_param, getitem. cbn [fst snd]. rewrite Hc. cbn [mbind result_bind].
      by rewrite Hcall. }
    cbn [foldM]. rewrite Hs1. cbn [mbind result_bind].
    destruct (IH Hnd s1) as (s' & Hs' & Hpre & Hout & Hin & Hinj); [done | |].
    { intros nc Hnc. apply Hcfg. by right. }
    assert (params (model s') !! name = Some a1) as Hhere.
    { rewrite Hout by done. subst s1. simpl_solver. by rewrite lookup_insert_eq. }
    subst s1. simpl_solver. pose proof (prefix_length _ _ Hpre1) as Hlen1.
    destruct (lookup_lt_is_Some_2 h1 a1 Hhi1) as [v Hv].
    exists s'. rewrite !fmap_cons. cbn [fst]. split_and!.
    + done.
    + by etrans.
    + intros name' [Hne Hnot]%not_elem_of_cons. rewrite Hout by done.
      by rewrite lookup_insert_ne.
    + intros name' sh' [[= -> ->]|Hl]%elem_of_cons.
      * exists c, (store s), a1. rewrite Hcall. cbn [fst snd].
        rewrite (prefix_lookup_Some _ _ _ _ Hv Hpre), Hv. split_and!; by eauto.
      * destruct (Hin _ _ Hl) as (c' & h & a & ? & ? & ? & ? & Ha & ? & ?).
        exists c', h, a. split_and!; [done | by etrans | done | done | lia | done | done].
    + assert (∀ n a, n ∈ l.*1 → params (model s') !! n = Some a → (a1 < a)%nat) as Hnew.
      { intros n a ((n' & sh') & -> & Hn)%list_elem_of_fmap Ha.
        destruct (Hin _ _ Hn) as (? & ? & a' & _ & _ & _ & Ha' & Hlt & _).
        cbn in *. simplify_eq. lia. }
      intros n1 n2 a [->|H1]%elem_of_cons [->|H2]%elem_of_cons Ha1 Ha2; [done|..].
      * rewrite Hhere in Ha1. simplify_eq. apply Hnew in Ha2; [lia | done].
      * rewrite Hhere in Ha2. simplify_eq. apply Hnew in Ha1; [lia | done].
      * by eapply Hinj.
Qed.

(** X4. Take a solver whose [init_configs] has an entry for every name
    of [model.param_configs] (as [_reset] leaves them) and whose
    initializer creates the array it returns and writes into no other.
    Provided the calls to the initializer return, [init] raises nothing
    of its own: it binds every name of [param_configs] to the array that
    the call [init_rule(shape, init_configs[name])] returned, with the
    value the call gave it, no two names to one array and none to an
    array that existed before; it writes into no array that existed, and
    leaves the other entries of [model.params] alone. *)
Theorem init_binds_new_arrays s :
  (∀ name, is_Some (param_configs (model s) !! name) → is_Some (init_configs s !! name)) →
  creating (init_rule s) →
  ∃ s', init s = Ok s' ∧
    store s `prefix_of` store s' ∧
    (∀ name, param_configs (model s) !! name = None →
       params (model s') !! name = params (model s) !! name) ∧
    (∀ name sh, param_configs (model s) !! name = Some sh →
       ∃ c h a, init_configs s !! name = Some c ∧ store s `prefix_of` h ∧
         a = (init_rule s h sh c).2 ∧ params (model s') !! name = Some a ∧
         (length (store s) ≤ a)%nat ∧ is_Some (params_values s' !! name) ∧
         params_values s' !! name = (init_rule s h sh c).1 !! a) ∧
    (∀ n1 n2 a, is_Some (param_configs (model s) !! n1) →
       is_Some (param_configs (model s) !! n2) →
       params (model s') !! n1 = Some a → params (model s') !! n2 = Some a → n1 = n2).
Proof.
  intros Hcfg Hrule. unfold init.
  assert (∀ name, name ∈ (map_to_list (param_configs (model s))).*1 ↔
            is_Some (param_configs (model s) !! name)) as Hdom.
  { intros name. rewrite list_elem_of_fmap. split.
    - intros ([n sh] & -> & Hn). apply elem_of_map_to_list in Hn. cbn. by rewrite Hn.
    - intros [sh Hsh]. exists (name, sh). split; [done|]. by apply elem_of_map_to_list. }
  destruct (init_loop (map_to_list (param_configs (model s)))
              (NoDup_fst_map_to_list _) s Hrule) as (s' & Hs' & Hpre & Hout & Hin & Hinj).
  { intros [name sh] Hnc%elem_of_map_to_list. apply Hcfg. cbn. by rewrite Hnc. }
  exists s'. split_and!; [done | done | | |].
  - intros name Hname. apply Hout. rewrite Hdom, Hname. by intros [? ?].
  - intros name sh Hsh%elem_of_map_to_list.
    destruct (Hin _ _ Hsh) as (c & h & a & Hc & Hh & Ha & Hp & Hle & Hsome & Hv).
    exists c, h, a. unfold params_values, values_in. rewrite lookup_omap, Hp. cbn.
    split_and!; done.
  - intros n1 n2 a H1%Hdom H2%Hdom. by apply Hinj.
Qed.

Lemma init_loop_missing l : ∀ s,
  (∃ nc, nc ∈ l ∧ init_configs s !! nc.1 = None) →
  ∃ k, foldM init_param s l = Raise (KeyError k) ∧ k ∈ l.*1 ∧ init_configs s !! k = None.
Proof.
  induction l as [|nc l IH]; intros s (nc' & Hin & Hnone); [by apply elem_of_nil in Hin|].
  cbn [foldM]. destruct (init_configs s !! nc.1) as [c|] eqn:Hc.
  - destruct (init_rule s (store s) nc.2 c) as [h1 a1] eqn:Hcall.
    pose (s1 := set_params (<[nc.1 := a1]> (params (model s))) (set_store h1 s)).
    assert (init_param s nc = Ok s1) as Hs1.
    { unfold init_param, getitem. rewrite Hc. cbn [mbind result_bind]. by rewrite Hcall. }
    rewrite Hs1. cbn [mbind result_bind].
    destruct (IH s1) as (k & -> & Hk & Hk').
    + apply elem_of_cons in Hin as [->|Hin]; [congruence|]. by exists nc'.
    + exists k. split_and!; [done | by right | done].
  - exists nc.1. unfold init_param, getitem. rewrite Hc. split_and!; [done | by left | done].
Qed.

(** X5. When [init_configs] lacks a name of [model.param_configs], [init]
    raises the [KeyError] of line 213 for such a name. *)
Theorem init_without_config_raises s name :
  is_Some (param_configs (model s) !! name) → init_configs s !! name = None →
  ∃ k, init s = Raise (KeyError k) ∧
       is_Some (param_configs (model s) !! k) ∧ init_configs s !! k = None.
Proof.
  intros [sh Hsh] Hnone.
  destruct (init_loop_missing (map_to_list (param_configs (model s))) s)
    as (k & Hk & ([k' sh'] & -> & Hin)%list_elem_of_fmap & Hk').
  { exists (name, sh). split; [by apply elem_of_map_to_list | done]. }
  exists k'. split_and!; [done | | done].
  apply elem_of_map_to_list in Hin. by rewrite Hin.
Qed.

End init_properties.

(** ** Further properties of [_step] *)

Section step_properties.

Context {tensor X shape I : Type} `{DataIter I X} `{Env tensor X shape}.
Implicit Types s : @Solver tensor shape I.

(** A solver is determined by its attributes. *)
Lemma solver_eq s s' :
  same_setup s s' → same_epoch_state s s' → stdout s' = stdout s →
  s' = set_optim_configs (optim_configs s') (set_params (params (model s'))
         (set_store (store s') (set_loss_history (loss_history s') s))).
Proof.
  intros [] [] ?. destruct s as [? [] ?], s' as [? [] ?]. cbn in *. by subst.
Qed.

Lemma update_param_inv grads s pw s' :
  update_param grads s pw = Ok s' →
  ∃ dw c h next_w next_config,
    grads !! pw.1 = Some dw ∧ optim_configs s !! pw.1 = Some c ∧
    update_rule s (store s) pw.2 dw c = (h, next_w, next_config) ∧
    s' = set_optim_configs (<[pw.1 := next_config]> (optim_configs s))
           (set_params (<[pw.1 := next_w]> (params (model s))) (set_store h s)).
Proof.
  unfold update_param, getitem. intros Hs.
  destruct (grads !! pw.1) as [dw|]; [|done]. cbn in Hs.
  destruct (optim_configs s !! pw.1) as [c|] eqn:Hc; [|done]. cbn in Hs.
  destruct (update_rule s _ _ _ _) as [[h next_w] next_config] eqn:Hrule.
  simplify_eq. by exists dw, c, h, next_w, next_config.
Qed.

Lemma update_param_dom grads s pw s' :
  update_param grads s pw = Ok s' →
  (is_Some (params (model s) !! pw.1) → dom (params (model s')) = dom (params (model s))) ∧
  dom (optim_configs s') = dom (optim_configs s).
Proof.
  intros (dw & c & h & next_w & next_config & _ & Hc & _ & ->)%update_param_inv.
  simpl_solver. split.
  - intros [w Hw]. by eapply dom_insert_lookup_L.
  - by apply dom_insert_lookup_L.
Qed.

(** X6. A [_step] that returns has appended the loss of the batch at the
    parameters it started from to [loss_history], and has otherwise
    changed nothing but the arrays, [model.params] and [optim_configs],
    whose sets of keys it keeps. *)
Theorem _step_changes s batch s' :
  _step s batch = Ok s' →
  let param_arrays :=
    omap (λ pw : string * loc, store s !! pw.2) (map_to_list (params (model s))) in
  let loss_func := λ _ : list tensor,
    loss (forward (params_values s) (data batch)) (label batch) in
  s' = set_optim_configs (optim_configs s') (set_params (params (model s'))
         (set_store (store s')
            (set_loss_history (loss_history s ++ [(grad_and_loss loss_func param_arrays).2]) s))) ∧
  dom (params (model s')) = dom (params (model s)) ∧
  dom (optim_configs s') = dom (optim_configs s).
Proof.
  intros Hs param_arrays loss_func.
  pose proof (_step_frame _ _ _ Hs) as (Hsetup & Hstate & _ & Hout).
  unfold _step in Hs. fold param_arrays loss_func in Hs.
  destruct (grad_and_loss loss_func param_arrays) as [grad_arrays loss_value]. cbn [snd].
  eapply (foldM_rel (λ s1 s2,
    (dom (params (model s1)) = dom (params (model s)) →
     dom (params (model s2)) = dom (params (model s))) ∧
    dom (optim_configs s2) = dom (optim_configs s1) ∧
    loss_history s2 = loss_history s1)) in Hs.
  - destruct Hs as (Hp & Ho & Hl). simpl_solver.
    split_and!; [|by apply Hp|done]. rewrite <-Hl. by apply solver_eq.
  - done.
  - intros s1 s2 s3 (? & ? & ?) (? & ? & ?). split_and!; [auto | congruence..].
  - intros s1 pw s2 Hpw Hs2. split_and!.
    + intros Hdom. apply update_param_dom in Hs2 as [-> _]; [done|].
      apply elem_of_dom. rewrite Hdom. apply elem_of_dom.
      destruct pw as [p w]. apply elem_of_map_to_list in Hpw. cbn. by rewrite Hpw.
    + by apply update_param_dom in Hs2 as [_ ?].
    + by apply update_param_frame in Hs2 as (_ & _ & ? & _).
Qed.

Lemma update_loop grads items : ∀ s,
  (∀ pw, pw ∈ items → is_Some (grads !! pw.1)) →
  ((∀ pw, pw ∈ items → is_Some (optim_configs s !! pw.1)) →
     ∃ s', foldM (update_param grads) s items = Ok s') ∧
  (∀ pw, pw ∈ items → optim_configs s !! pw.1 = None →
     ∃ k, foldM (update_param grads) s items = Raise (KeyError k) ∧
          k ∈ items.*1 ∧ optim_configs s !! k = None).
Proof.
  induction items as [|pw items IH]; intros s Hgrads.
  - split; [by exists s|]. by intros ? ?%elem_of_nil.
  - destruct (Hgrads pw) as [dw Hdw]; [left|]. cbn [foldM].
    destruct (optim_configs s !! pw.1) as [c|] eqn:Hc.
    + destruct (update_rule s (store s) pw.2 dw c) as [[h next_w] next_config] eqn:Hrule.
      pose (s1 := set_optim_configs (<[pw.1 := next_config]> (optim_configs s))
                    (set_params (<[pw.1 := next_w]> (params (model s))) (set_store h s))).
      assert (update_param grads s pw = Ok s1) as ->.
      { unfold update_param, getitem. rewrite Hdw, Hc. cbn. by rewrite Hrule. }
      cbn [mbind result_bind].
      assert (∀ k, is_Some (optim_configs s1 !! k) ↔ is_Some (optim_configs s !! k)) as Hcfg.
      { intros k. subst s1. simpl_solver. destruct (decide (k = pw.1)) as [->|].
        - rewrite lookup_insert_eq, Hc. by split.
        - by rewrite lookup_insert_ne. }
      destruct (IH s1) as [IHok IHraise]; [intros; apply Hgrads; by right|]. split.
      * intros Hall. apply IHok. intros pw' Hpw'. apply Hcfg, Hall. by right.
      * intros pw' [->|Hpw']%elem_of_cons Hnone; [congruence|].
        destruct (IHraise pw' Hpw') as (k & -> & Hk & Hk').
        { apply eq_None_not_Some. rewrite Hcfg. by rewrite Hnone; intros []. }
        exists k. split_and!; [done | rewrite fmap_cons; by right |].
        apply eq_None_not_Some. rewrite <-Hcfg. by rewrite Hk'; intros [].
    + split.
      * intros Hall. destruct (Hall pw) as [? ?]; [left | congruence].
      * intros _ _ _. exists pw.1. unfold update_param, getitem. rewrite Hdw, Hc. cbn.
        split_and!; [done | by left | done].
Qed.

Lemma step_grads s (grad_arrays : list tensor) pw :
  (length (map_to_list (params (model s))) ≤ length grad_arrays)%nat →
  pw ∈ map_to_list (params (model s)) →
  is_Some ((list_to_map (zip (map_to_list (params (model s))).*1 grad_arrays)
              : gmap string tensor) !! pw.1).
Proof.
  intros Hlen Hpw. apply not_eq_None_Some. rewrite <-not_elem_of_list_to_map.
  rewrite fst_zip by (by rewrite length_fmap). intros Hnot. apply Hnot.
  apply list_elem_of_fmap. by exists pw.
Qed.

Lemma param_arrays_length s :
  params_allocated s →
  length (omap (λ pw : string * loc, store s !! pw.2) (map_to_list (params (model s)))) =
  length (map_to_list (params (model s))).
Proof.
  intros Hall.
  assert (Forall (λ pw : string * loc, (pw.2 < length (store s))%nat)
            (map_to_list (params (model s)))) as Hl.
  { apply Forall_forall. intros [p w] Hpw%elem_of_map_to_list. by apply (Hall p w). }
  induction Hl as [|pw l Hpw Hl IH]; [done|]. cbn.
  destruct (lookup_lt_is_Some_2 _ _ Hpw) as [v ->]. cbn. by rewrite IH.
Qed.

(** X7. Provided the calls to the model, to [grad_and_loss] and to the
    update rule return, [_step] raises nothing of its own, neither the
    [KeyError] of line 170 nor that of line 171, when every parameter is
    an array, has its entry in [optim_configs], and [grad_and_loss]
    returns one gradient per array it is given. *)
Theorem _step_succeeds s batch :
  (∀ f (arrays : list tensor), length (grad_and_loss f arrays).1 = length arrays) →
  params_allocated s →
  (∀ p, is_Some (params (model s) !! p) → is_Some (optim_configs s !! p)) →
  ∃ s', _step s batch = Ok s'.
Proof.
  intros Hgrad Halloc Hcfg. unfold _step.
  pose proof (Hgrad (λ _, loss (forward (params_values s) (data batch)) (label batch))
    (omap (λ pw : string * loc, store s !! pw.2) (map_to_list (params (model s))))) as Hlen.
  rewrite param_arrays_length in Hlen by done.
  destruct (grad_and_loss _ _) as [grad_arrays loss_value]. cbn [fst] in Hlen.
  eapply update_loop.
  - intros pw Hpw. apply step_grads; [lia | done].
  - intros [p w] Hpw%elem_of_map_to_list. simpl_solver. apply Hcfg. cbn [fst]. by rewrite Hpw.
Qed.

(** X8. Under the same conditions on the arrays and the gradients, a
    parameter without an entry in [optim_configs] makes [_step] raise the
    [KeyError] of line 171, for such a parameter. *)
Theorem _step_without_config_raises s batch p :
  (∀ f (arrays : list tensor), length (grad_and_loss f arrays).1 = length arrays) →
  params_allocated s →
  is_Some (params (model s) !! p) → optim_configs s !! p = None →
  ∃ k, _step s batch = Raise (KeyError k) ∧
       is_Some (params (model s) !! k) ∧ optim_configs s !! k = None.
Proof.
  intros Hgrad Halloc [w Hw] Hnone. unfold _step.
  pose proof (Hgrad (λ _, loss (forward (params_values s) (data batch)) (label batch))
    (omap (λ pw : string * loc, store s !! pw.2) (map_to_list (params (model s))))) as Hlen.
  rewrite param_arrays_length in Hlen by done.
  destruct (grad_and_loss _ _) as [grad_arrays loss_value]. cbn [fst] in Hlen.
  set (s0 := set_loss_history _ s).
  set (grads := list_to_map _ : gmap string tensor).
  destruct (update_loop grads (map_to_list (params (model s))) s0) as [_ Hraise].
  { intros pw Hpw. apply step_grads; [|done]. by rewrite Hlen. }
  destruct (Hraise (p, w)) as (k & Hk & Hin & Hk'); [by apply elem_of_map_to_list | done |].
  exists k. split_and!; [exact Hk | | exact Hk'].
    apply list_elem_of_fmap in Hin as ([k' w'] & -> & Hin).
    apply elem_of_map_to_list in Hin. cbn. by rewrite Hin.
Qed.

End step_properties.

(** ** Further properties of [check_accuracy] *)

Section accuracy_properties.

Context {tensor X shape I : Type} `{DataIter I X} `{Env tensor X shape}.
Implicit Types s : @Solver tensor shape I.

(** The loop of lines 201-204 from the counts [(a, n)]. *)
Lemma accuracy_loop s (bsz : nat) bs : ∀ a n a' n',
  foldM (λ (c : nat * nat) each_batch,
           k ← count_correct (forward (params_values s) (data each_batch)) (label each_batch);
           Ok (c.1 + k, c.2 + bsz)%nat) (a, n) bs = Ok (a', n') →
  n' = (n + length bs * bsz)%nat ∧
  ((∀ b, b ∈ bs → length (forward (params_values s) (data b)) = length (label b) ∧
                  (length (label b) ≤ bsz)%nat) →
   (a ≤ n)%nat → (a' ≤ n')%nat).
Proof.
  induction bs as [|b bs IH]; intros a n a' n' Hs; cbn in Hs.
  - simplify_eq. split; [cbn; lia | done].
  - destruct (count_correct _ _) as [k|] eqn:Hk; [|done]. cbn in Hs.
    apply IH in Hs as [-> Hle]. split; [cbn; lia|].
    intros Hlen Han. apply Hle; [intros; apply Hlen; by right|].
    destruct (Hlen b) as [Hrows Hb]; [left|].
    apply count_correct_le in Hk; [lia | done].
Qed.

Lemma accuracy_over_inv s it acc after :
  accuracy_over s it = Ok (acc, after) →
  ∃ a n, foldM (λ (c : nat * nat) each_batch,
             k ← count_correct (forward (params_values s) (data each_batch)) (label each_batch);
             Ok (c.1 + k, c.2 + dataiter_batch_size it)%nat) (0, 0)%nat (for_each it).1
           = Ok (a, n) ∧
         n ≠ 0%nat ∧ acc = Q2Qc (Z.of_nat a # Pos.of_nat n) ∧ after = (for_each it).2.
Proof.
  unfold accuracy_over. destruct (for_each it) as [bs after']. cbn [fst snd].
  destruct (foldM _ _ bs) as [[a n]|]; [|done]. cbn [mbind result_bind].
  unfold float_div. case_bool_decide; [done|]. cbn. intros [= <- <-]. by exists a, n.
Qed.

Lemma accuracy_over_range {Hspec : DataIterSpec I X} s it acc after :
  (∀ b, b ∈ (for_each it).1 →
     length (forward (params_values s) (data b)) = length (label b)) →
  accuracy_over s it = Ok (acc, after) → 0 ≤ acc ≤ 1.
Proof.
  intros Hrows (a & n & Hloop & Hn & -> & _)%accuracy_over_inv.
  apply accuracy_loop in Hloop as [_ Hle].
  apply Q2Qc_fraction_range; [lia|]. apply Hle; [|done].
  intros b Hb. split; [by apply Hrows | by apply batch_length].
Qed.

Lemma check_accuracy_over s dataiter num_samples batch_size acc after :
  check_accuracy s dataiter num_samples batch_size = Ok (acc, after) →
  ∃ it after', accuracy_over s it = Ok (acc, after').
Proof.
  unfold check_accuracy. intros Hs. repeat case_match; eauto.
  inv_result Hs. destruct a. simplify_eq. eauto.
Qed.

(** X9. Whether it subsamples or not, an accuracy that [check_accuracy]
    returns lies between [0] and [1], with a model that returns one row
    of scores for every label of a batch, over iterators none of whose
    batches is longer than their [batch_size]. *)
Theorem check_accuracy_range {Hspec : DataIterSpec I X} s dataiter num_samples batch_size
    acc after :
  (∀ it b, b ∈ (for_each it).1 →
     length (forward (params_values s) (data b)) = length (label b)) →
  check_accuracy s dataiter num_samples batch_size = Ok (acc, after) → 0 ≤ acc ≤ 1.
Proof.
  intros Hrows (it & after' & Hacc)%check_accuracy_over.
  eapply accuracy_over_range; [apply Hrows | done].
Qed.

(** X10. With a model whose rows of scores are not empty, the loop of lines
    199-205 raises [ZeroDivisionError] exactly when the iterator yields no
    batch or its [batch_size] is [0]. *)
Theorem accuracy_over_division_by_zero s it :
  (∀ b, b ∈ (for_each it).1 → Forall (λ row, row ≠ []) (forward (params_values s) (data b))) →
  accuracy_over s it = Raise ZeroDivisionError ↔
  (for_each it).1 = [] ∨ dataiter_batch_size it = 0%nat.
Proof.
  intros Hrows. unfold accuracy_over. destruct (for_each it) as [bs after]. cbn [fst] in *.
  assert (∀ bs' a n, (∀ b, b ∈ bs' → b ∈ bs) → ∃ a',
    foldM (λ (c : nat * nat) each_batch,
             k ← count_correct (forward (params_values s) (data each_batch)) (label each_batch);
             Ok (c.1 + k, c.2 + dataiter_batch_size it)%nat) (a, n) bs' =
    Ok (a', n + length bs' * dataiter_batch_size it)%nat) as Hloop.
  { induction bs' as [|b bs' IH]; intros a n Hin; cbn.
    - exists a. by rewrite Nat.add_0_r.
    - destruct (count_correct_total (forward (params_values s) (data b)) (label b))
        as [k ->]; [apply Hrows, Hin; left|]. cbn.
      destruct (IH (a + k)%nat (n + dataiter_batch_size it)%nat) as [a' ->];
        [intros; apply Hin; by right|].
      exists a'. do 2 f_equal. lia. }
  destruct (Hloop bs 0%nat 0%nat) as [a' ->]; [done|]. cbn [mbind result_bind].
  unfold float_div. case_bool_decide as Hz; cbn.
  - split; [|done]. intros _. destruct bs; [by left|]. right. cbn in Hz. lia.
  - split; [done|]. intros [->|Hb]; destruct Hz; [done | rewrite Hb; lia].
Qed.

End accuracy_properties.

(** ** What [train] prints *)

Section output.

Context {tensor X shape I : Type} `{DataIter I X} `{Env tensor X shape}.
Implicit Types s : @Solver tensor shape I.

Lemma loss_lines_cons pe ni t l ls :
  loss_lines pe ni t (l :: ls) =
  (if bool_decide (t `mod` pe = 0)%nat then [print_iteration (t + 1) ni l] else []) ++
  loss_lines pe ni (S t) ls.
Proof. unfold loss_lines. cbn. by case_bool_decide. Qed.

Lemma loss_lines_app pe ni ls1 : ∀ t ls2,
  loss_lines pe ni t (ls1 ++ ls2) =
  loss_lines pe ni t ls1 ++ loss_lines pe ni (t + length ls1) ls2.
Proof.
  induction ls1 as [|l ls1 IH]; intros t ls2.
  - cbn [length app]. by rewrite Nat.add_0_r.
  - rewrite <-app_comm_cons, !loss_lines_cons, IH, <-app_assoc. cbn [length].
    by replace (t + S (length ls1))%nat with (S t + length ls1)%nat by lia.
Qed.

Lemma iteration_lines_loss_lines pe ni t ls :
  iteration_lines (loss_lines pe ni t ls) = loss_lines pe ni t ls ∧
  epoch_headers (loss_lines pe ni t ls) = [].
Proof.
  revert t. induction ls as [|l ls IH]; intros t; [done|].
  rewrite loss_lines_cons. unfold iteration_lines, epoch_headers in *.
  rewrite !omap_app. destruct (IH (S t)) as [-> ->].
  by case_bool_decide.
Qed.

Lemma run_epochs_step n s s0 t st :
  run_epochs n s = Ok (s0, t) → run_epochs (S n) s = Ok st →
  train_epoch (getnumiterations (train_dataiter s) * num_epochs s) (s0, t) n = Ok st.
Proof. intros Hn. by rewrite run_epochs_S, Hn. Qed.

Lemma run_epochs_same_setup n s st : run_epochs n s = Ok st → same_setup s st.1.
Proof.
  intros Hrun. by apply (run_epochs_ind (λ _ _, True)) in Hrun as [_ ?].
Qed.

Lemma train_batch_output ni s t b s' t' :
  train_batch ni (s, t) b = Ok (s', t') →
  ∃ l, loss_history s' = loss_history s ++ [l] ∧ t' = S t ∧
    stdout s' = stdout s ++ (if verbose s then loss_lines (print_every s) ni t [l] else []).
Proof.
  unfold train_batch. cbn [fst snd]. intros Hs. inv_result Hs. simplify_eq.
  apply _step_frame in E as (Hsetup & _ & [l Hl] & Hout).
  exists l. rewrite <-(same_verbose _ _ Hsetup), <-(same_print_every _ _ Hsetup), <-Hout, <-Hl.
  clear Hsetup Hout. revert E0. unfold print_loss.
  destruct (verbose a); [|intros [= <-]; split_and!; [done | lia | by rewrite app_nil_r]].
  case_bool_decide; [done|]. rewrite loss_lines_cons.
  case_bool_decide.
  - rewrite Hl, last_snoc. intros [= <-]. simpl_solver. split_and!; [done | lia | done].
  - intros [= <-]. split_and!; [done | lia | by rewrite app_nil_r].
Qed.

Lemma train_batches_output ni bs : ∀ s t s' t',
  foldM (train_batch ni) (s, t) bs = Ok (s', t') →
  ∃ ls, loss_history s' = loss_history s ++ ls ∧ length ls = length bs ∧
    t' = (t + length ls)%nat ∧
    stdout s' = stdout s ++ (if verbose s then loss_lines (print_every s) ni t ls else []).
Proof.
  induction bs as [|b bs IH]; intros s t s' t' Hs; cbn in Hs.
  - simplify_eq. exists []. rewrite !app_nil_r. split_and!; [done | done | cbn; lia |].
    destruct (verbose s'); by rewrite app_nil_r.
  - inv_result Hs. destruct a as [s1 t1].
    pose proof (train_batch_frame _ _ _ _ _ _ E) as (Hsetup & _).
    apply train_batch_output in E as (l & Hl & -> & Hout).
    apply IH in Hs as (ls & Hls & Hlen & -> & Hout').
    exists (l :: ls). rewrite Hls, Hl, Hout', Hout, <-!app_assoc.
    rewrite (same_verbose _ _ Hsetup), (same_print_every _ _ Hsetup).
    split_and!; [done | cbn; lia | cbn; lia |].
    destruct (verbose s); [|done]. f_equal.
    by rewrite (loss_lines_app _ _ [l] t ls), Nat.add_1_r.
Qed.

Lemma keep_best_stdout val_acc s : stdout (keep_best val_acc s) = stdout s.
Proof. unfold keep_best. by case_bool_decide. Qed.

Lemma keep_best_loss_history val_acc s :
  loss_history (keep_best val_acc s) = loss_history s.
Proof. unfold keep_best. by case_bool_decide. Qed.

Lemma print_summary_stdout train_acc val_acc s :
  stdout (print_summary train_acc val_acc s) =
    stdout s ++ (if verbose s
                 then [print_epoch_summary (epoch s) (num_epochs s) train_acc val_acc]
                 else []).
Proof. unfold print_summary. destruct (verbose s); [done|]. by rewrite app_nil_r. Qed.

Lemma print_summary_loss_history train_acc val_acc s :
  loss_history (print_summary train_acc val_acc s) = loss_history s.
Proof. unfold print_summary. by destruct (verbose s). Qed.

Lemma stdout_set_optim_configs v s : stdout (set_optim_configs v s) = stdout s.
Proof. done. Qed.

Lemma loss_history_set_optim_configs v s :
  loss_history (set_optim_configs v s) = loss_history s.
Proof. done. Qed.

(** The output and the losses of one epoch. *)
Lemma train_epoch_output ni s t e s' t' :
  train_epoch ni (s, t) e = Ok (s', t') →
  ∃ ls train_acc val_acc,
    loss_history s' = loss_history s ++ ls ∧ t' = (t + length ls)%nat ∧
    stdout s' = stdout s ++ [print_epoch e] ++
      (if verbose s
       then loss_lines (print_every s) ni t ls ++
            [print_epoch_summary (epoch s) (num_epochs s) train_acc val_acc]
       else []).
Proof.
  intros (s1 & ta & va & it1 & it2 & Hb & _ & _ & _ & ->)%train_epoch_summary.
  pose proof (train_batches_frame _ _ _ _ _ _ Hb) as (Hsetup & _).
  apply train_batches_output in Hb as (ls & Hls & _ & -> & Hout).
  pose proof (same_verbose _ _ Hsetup) as Hv. pose proof (same_epoch _ _ Hsetup) as He.
  pose proof (same_num_epochs _ _ Hsetup) as Hn. clear Hsetup.
  exists ls, ta, va.
  rewrite stdout_set_optim_configs, keep_best_stdout, print_summary_stdout,
    loss_history_set_optim_configs, keep_best_loss_history, print_summary_loss_history.
  simpl_solver. rewrite Hout, Hv, He, Hn, Hls, <-!app_assoc.
  split_and!; [done | done |]. by destruct (verbose s); rewrite ?app_nil_r.
Qed.

(** What a run of [n] epochs has printed and recorded. *)
Lemma run_epochs_output s : ∀ n st,
  run_epochs n s = Ok st →
  ∃ ls out, loss_history st.1 = loss_history s ++ ls ∧ st.2 = length ls ∧
    stdout st.1 = stdout s ++ out ∧
    epoch_headers out = seq 0 n ∧
    iteration_lines out =
      (if verbose s
       then loss_lines (print_every s) (getnumiterations (train_dataiter s) * num_epochs s) 0 ls
       else []) ∧
    (verbose s = false → out = print_epoch <$> seq 0 n).
Proof.
  induction n as [|n IH]; intros st Hrun.
  - rewrite run_epochs_0 in Hrun. simplify_eq. exists [], []. rewrite !app_nil_r.
    split_and!; try done. by destruct (verbose s).
  - destruct (run_epochs_prefix s n (S n) st) as [[s0 t] Hn]; [lia | done |].
    destruct (IH _ Hn) as (ls & out & Hls & Ht & Hout & Hhead & Hlines & Hquiet).
    cbn [fst snd] in *. subst t.
    pose proof (run_epochs_same_setup _ _ _ Hn) as Hsetup. cbn [fst] in Hsetup.
    apply (run_epochs_step _ _ _ _ _ Hn) in Hrun. destruct st as [s' t'].
    apply train_epoch_output in Hrun as (ls' & ta & va & Hls' & -> & Hout').
    rewrite (same_verbose _ _ Hsetup), (same_print_every _ _ Hsetup),
      (same_epoch _ _ Hsetup), (same_num_epochs _ _ Hsetup) in Hout'.
    set (ni := (getnumiterations (train_dataiter s) * num_epochs s)%nat) in *.
    set (out_e := [print_epoch n] ++ (if verbose s then _ else [])) in Hout'.
    assert (epoch_headers out_e = [n] ∧
            iteration_lines out_e =
              (if verbose s then loss_lines (print_every s) ni (length ls) ls' else []))
      as [Hhead' Hlines'].
    { subst out_e. unfold epoch_headers, iteration_lines. destruct (verbose s); [|done].
      rewrite !omap_app.
      pose proof (iteration_lines_loss_lines (print_every s) ni (length ls) ls') as [Hl Hh].
      unfold epoch_headers, iteration_lines in Hl, Hh. rewrite Hl, Hh.
      cbn -[loss_lines]. by rewrite app_nil_r. }
    exists (ls ++ ls'), (out ++ out_e). cbn [fst snd]. split_and!.
    + by rewrite Hls', Hls, app_assoc.
    + by rewrite length_app.
    + by rewrite Hout', Hout, app_assoc.
    + unfold epoch_headers in *. by rewrite omap_app, Hhead, Hhead', seq_S.
    + unfold iteration_lines in *. rewrite omap_app, Hlines, Hlines'.
      destruct (verbose s); [|done]. by rewrite loss_lines_app.
    + intros Hv. rewrite (Hquiet Hv), seq_S, fmap_app. subst out_e. by rewrite Hv.
Qed.

(** X11. [train] prints the header of line 222 for every epoch, numbered
    from [0], whatever [verbose] is; with [verbose] false these headers
    are all it prints. *)
Theorem train_prints_epoch_headers s s' :
  train s = Ok s' →
  ∃ out, stdout s' = stdout s ++ out ∧ epoch_headers out = seq 0 (num_epochs s) ∧
    (verbose s = false → out = print_epoch <$> seq 0 (num_epochs s)).
Proof.
  intros (st & Hrun & ->)%train_inv.
  apply run_epochs_output in Hrun as (ls & out & _ & _ & Hout & Hhead & _ & Hquiet).
  by exists out.
Qed.

(** X12. With [verbose] true, [train] prints the loss of a batch exactly
    when the number [t] of the batch, counted from [0] over the whole
    run, is a multiple of [print_every]; the line shows [t + 1], the
    [num_iterations] computed at line 219 and the loss that the step has
    just appended. With [verbose] false it prints no loss. *)
Theorem train_prints_every_nth_loss s s' :
  train s = Ok s' →
  ∃ ls out, loss_history s' = loss_history s ++ ls ∧ stdout s' = stdout s ++ out ∧
    iteration_lines out =
      if verbose s
      then loss_lines (print_every s) (getnumiterations (train_dataiter s) * num_epochs s) 0 ls
      else [].
Proof.
  intros (st & Hrun & ->)%train_inv.
  apply run_epochs_output in Hrun as (ls & out & Hls & _ & Hout & _ & Hlines & _).
  by exists ls, out.
Qed.

End output.

(** ** How [train] fails *)

Section failures.

Context {tensor X shape I : Type} `{DataIter I X} `{Env tensor X shape}.
Implicit Types s : @Solver tensor shape I.

Lemma train_first_epoch_raises s e :
  (0 < num_epochs s)%nat →
  train_epoch (getnumiterations (train_dataiter s) * num_epochs s) (s, 0%nat) 0 = Raise e →
  train s = Raise e.
Proof.
  intros Hn He. unfold train, run_epochs. destruct (num_epochs s) as [|n]; [lia|].
  cbn [seq foldM]. by rewrite He.
Qed.

Lemma accuracy_over_nil s it :
  (for_each it).1 = [] → accuracy_over s it = Raise ZeroDivisionError.
Proof.
  unfold accuracy_over. destruct (for_each it) as [bs after]. cbn [fst]. by intros ->.
Qed.

(** X13. The training accuracy of line 233 is taken over the training
    iterator as the loop of line 223 left it, unless it holds more than
    1000 examples. When it holds at most 1000 and yields nothing more
    until it is restarted, the first epoch fails: with the
    [ZeroDivisionError] of line 205, unless a step has failed before. *)
Theorem train_on_at_most_1000_examples s :
  let num_iterations := (getnumiterations (train_dataiter s) * num_epochs s)%nat in
  let exhausted := (for_each (train_dataiter s)).2 in
  (0 < num_epochs s)%nat → (num_data exhausted ≤ 1000)%nat → (for_each exhausted).1 = [] →
  ∃ e, train s = Raise e ∧
    (e = ZeroDivisionError ∨
     foldM (train_batch num_iterations) (print (print_epoch 0) s, 0%nat)
       (for_each (train_dataiter s)).1 = Raise e).
Proof.
  intros ni exhausted Hn Hsmall Hnil.
  assert (∃ e, train_epoch ni (s, 0%nat) 0 = Raise e ∧
    (e = ZeroDivisionError ∨
     foldM (train_batch ni) (print (print_epoch 0) s, 0%nat)
       (for_each (train_dataiter s)).1 = Raise e)) as (e & He & Hwhy).
  { unfold train_epoch. cbn [fst snd].
    change (train_dataiter (print (print_epoch 0) s)) with (train_dataiter s).
    subst exhausted. destruct (for_each (train_dataiter s)) as [batches after].
    cbn [fst snd] in *.
    destruct (foldM _ _ batches) as [[s1 t]|e]; [|by exists e; split; [|right]].
    exists ZeroDivisionError. split; [|by left]. cbn [mbind result_bind fst snd].
    unfold evaluate, check_accuracy. simpl_solver.
    rewrite bool_decide_eq_false_2 by lia. by rewrite accuracy_over_nil. }
  exists e. split; [by apply train_first_epoch_raises | done].
Qed.

(** X14. With [verbose] true and [print_every = 0], the test of line 226
    divides by zero: [train] fails at its first batch, with
    [ZeroDivisionError] unless the step itself has failed. *)
Theorem train_print_every_zero s b bs :
  verbose s = true → print_every s = 0%nat → (0 < num_epochs s)%nat →
  (for_each (train_dataiter s)).1 = b :: bs →
  ∃ e, train s = Raise e ∧
    (e = ZeroDivisionError ∨ _step (print (print_epoch 0) s) b = Raise e).
Proof.
  intros Hv Hpe Hn Hb.
  set (ni := (getnumiterations (train_dataiter s) * num_epochs s)%nat).
  assert (∃ e, train_epoch ni (s, 0%nat) 0 = Raise e ∧
    (e = ZeroDivisionError ∨ _step (print (print_epoch 0) s) b = Raise e)) as (e & He & Hwhy).
  { unfold train_epoch. cbn [fst snd].
    change (train_dataiter (print (print_epoch 0) s)) with (train_dataiter s).
    destruct (for_each (train_dataiter s)) as [batches after]. cbn [fst] in Hb. subst batches.
    assert (∃ e, train_batch ni (print (print_epoch 0) s, 0%nat) b = Raise e ∧
      (e = ZeroDivisionError ∨ _step (print (print_epoch 0) s) b = Raise e))
      as (e & He & Hwhy).
    { unfold train_batch. cbn [fst snd].
      destruct (_step (print (print_epoch 0) s) b) as [s1|e] eqn:Hstep;
        [|by exists e; split; [|right]].
      exists ZeroDivisionError. split; [|by left].
      apply _step_frame in Hstep as (Hsetup & _).
      cbn [mbind result_bind]. unfold print_loss.
      rewrite (same_verbose _ _ Hsetup), (same_print_every _ _ Hsetup). simpl_solver.
      by rewrite Hv, Hpe. }
    exists e. split; [|done]. cbn [foldM]. by rewrite He. }
  exists e. split; [by apply train_first_epoch_raises | done].
Qed.

(** *** The decay of the learning rates *)

Lemma decay_one_keeps s k s' :
  decay_one s k = Ok s' →
  ∀ k', (∃ c, optim_configs s' !! k' = Some c ∧ c !! "learning_rate" = None) ↔
        (∃ c, optim_configs s !! k' = Some c ∧ c !! "learning_rate" = None).
Proof.
  intros (c & lr & Hc & Hlr & ->)%decay_one_inv k'. simpl_solver.
  destruct (decide (k' = k)) as [->|]; [|by rewrite lookup_insert_ne].
  rewrite lookup_insert_eq, Hc. unfold decayed. split.
  - intros (? & [= <-] & Hnone). by rewrite lookup_alter_eq, Hlr in Hnone.
  - intros (? & [= <-] & ?). congruence.
Qed.

Lemma decay_loop_result ks : ∀ s,
  (∀ k, k ∈ ks → is_Some (optim_configs s !! k)) →
  ((∀ k c, k ∈ ks → optim_configs s !! k = Some c → is_Some (c !! "learning_rate")) →
     ∃ s', foldM decay_one s ks = Ok s') ∧
  (∀ k c, k ∈ ks → optim_configs s !! k = Some c → c !! "learning_rate" = None →
     foldM decay_one s ks = Raise (KeyError "learning_rate")).
Proof.
  induction ks as [|k ks IH]; intros s Hks.
  - split; [by exists s|]. by intros ? ? ?%elem_of_nil.
  - destruct (Hks k) as [c Hc]; [left|]. cbn [foldM].
    destruct (c !! "learning_rate") as [lr|] eqn:Hlr.
    + destruct (decay_one s k) as [s1|] eqn:Hs1;
        [|by unfold decay_one, getitem in Hs1; rewrite Hc in Hs1; cbn in Hs1;
             rewrite Hlr in Hs1].
      pose proof (decay_one_keeps _ _ _ Hs1) as Hkeep.
      assert (∀ k', is_Some (optim_configs s1 !! k') ↔ is_Some (optim_configs s !! k'))
        as Hdom.
      { apply decay_one_inv in Hs1 as (? & ? & ? & _ & ->). intros k'. simpl_solver.
        destruct (decide (k' = k)) as [->|]; [|by rewrite lookup_insert_ne].
        rewrite lookup_insert_eq. split; [eauto | by eauto]. }
      cbn [mbind result_bind].
      destruct (IH s1) as [IHok IHraise]; [intros; apply Hdom, Hks; by right|]. split.
      * intros Hall. apply IHok. intros k' c' Hk' Hc'.
        destruct (c' !! "learning_rate") eqn:Hlr'; [done|].
        destruct (proj1 (Hkeep k')) as (c0 & Hc0 & Hnone); [eauto|].
        destruct (decide (k' ∈ k :: ks)) as [Hin|Hin]; [|by destruct Hin; right].
        destruct (Hall _ _ Hin Hc0). congruence.
      * intros k' c' [->|Hk']%elem_of_cons Hc' Hnone; [congruence|].
        destruct (proj2 (Hkeep k')) as (c0 & Hc0 & Hnone0); [eauto|].
        by eapply IHraise.
    + split.
      * intros Hall. destruct (Hall k c) as [? ?]; [left | done | congruence].
      * intros _ _ _ _ _. unfold decay_one, getitem. rewrite Hc. cbn. by rewrite Hlr.
Qed.

(** X15. The decay of lines 259-260 multiplies the learning rate of every
    parameter's config by [lr_decay] and changes nothing else, when every
    config has a learning rate; if one has none it raises
    [KeyError('learning_rate')]. *)
Theorem decay_learning_rates_result s :
  (map_Forall (λ _ c, is_Some (c !! "learning_rate")) (optim_configs s) →
     decay_learning_rates s =
       Ok (set_optim_configs (decayed (lr_decay s) <$> optim_configs s) s)) ∧
  (∀ p c, optim_configs s !! p = Some c → c !! "learning_rate" = None →
     decay_learning_rates s = Raise (KeyError "learning_rate")).
Proof.
  destruct (decay_loop_result (map_to_list (optim_configs s)).*1 s) as [Hok Hraise].
  { intros k ([k' c] & -> & Hin%elem_of_map_to_list)%list_elem_of_fmap. cbn. by rewrite Hin. }
  split.
  - intros Hall. destruct Hok as [s' Hs'].
    { intros k c _ Hc. by apply (Hall k c). }
    fold (decay_learning_rates s) in Hs'. rewrite Hs'.
    by apply decay_learning_rates_inv in Hs' as [-> _].
  - intros p c Hc Hnone. apply (Hraise p c); [|done..].
    apply list_elem_of_fmap. exists (p, c). split; [done|]. by apply elem_of_map_to_list.
Qed.

End failures.

(** ** The bookkeeping of [train] *)

Section bookkeeping.

Context {tensor X shape I : Type} `{DataIter I X} `{Env tensor X shape}.
Implicit Types s : @Solver tensor shape I.

(** X16. Every epoch appends one accuracy to [train_acc_history] and one
    to [val_acc_history]: [train] keeps what the histories held and adds
    [num_epochs] entries to each, all between [0] and [1] when the model
    returns one row of scores for every label of a batch and no batch is
    longer than its iterator's [batch_size]. *)
Theorem train_records_accuracies {Hspec : DataIterSpec I X} s s' :
  (∀ ps (it : I) b, b ∈ (for_each it).1 → length (forward ps (data b)) = length (label b)) →
  train s = Ok s' →
  ∃ tas vas,
    train_acc_history s' = train_acc_history s ++ tas ∧
    val_acc_history s' = val_acc_history s ++ vas ∧
    length tas = num_epochs s ∧ length vas = num_epochs s ∧
    Forall (λ a, 0 ≤ a ≤ 1) (tas ++ vas).
Proof.
  intros Hrows (st & Hrun & ->)%train_inv.
  eapply (run_epochs_ind (λ n s0, ∃ tas vas,
    train_acc_history s0 = train_acc_history s ++ tas ∧
    val_acc_history s0 = val_acc_history s ++ vas ∧
    length tas = n ∧ length vas = n ∧
    Forall (λ a, 0 ≤ a ≤ 1) tas ∧ Forall (λ a, 0 ≤ a ≤ 1) vas)) in Hrun as [Hrun _].
  - destruct Hrun as (tas & vas & ? & ? & ? & ? & ? & ?). exists tas, vas.
    split_and!; [done..|]. by apply Forall_app.
  - exists [], []. by rewrite !app_nil_r.
  - clear -Hspec Hrows.
    intros n s0 t s1 s' t' ta va _ _ _ (tas & vas & Ht & Hv & ? & ? & ? & ?) _ He.
    destruct (effect_train_dataiter _ _ _ _ _ _ He) as (it1 & (? & ? & Hta)%check_accuracy_over & _).
    destruct (effect_test_dataiter _ _ _ _ _ _ He) as (it2 & (? & ? & Hva)%check_accuracy_over & _).
    apply accuracy_over_range in Hta; [|intros b Hb; by eapply Hrows].
    apply accuracy_over_range in Hva; [|intros b Hb; by eapply Hrows].
    exists (tas ++ [ta]), (vas ++ [va]).
    rewrite (effect_train_acc_history _ _ _ _ _ _ He), (effect_val_acc_history _ _ _ _ _ _ He),
      Ht, Hv, <-!app_assoc, !length_app.
    split_and!; [done | done | cbn; lia | cbn; lia | |];
      by rewrite Forall_app, Forall_singleton.
Qed.

(** X17. [train] leaves both iterators as [reset] leaves them, once an
    epoch has run; with [num_epochs = 0] it does not touch them. *)
Theorem train_restarts_iterators s s' :
  train s = Ok s' →
  if decide (num_epochs s = 0%nat)
  then train_dataiter s' = train_dataiter s ∧ test_dataiter s' = test_dataiter s
  else (∃ it, train_dataiter s' = reset it) ∧ (∃ it, test_dataiter s' = reset it).
Proof.
  intros (st & Hrun & ->)%train_inv.
  change (train_dataiter (swap_best st.1)) with (train_dataiter st.1).
  change (test_dataiter (swap_best st.1)) with (test_dataiter st.1).
  case_decide as Hn.
  - rewrite Hn, run_epochs_0 in Hrun. by simplify_eq.
  - destruct (num_epochs s) as [|n]; [done|]. clear Hn.
    destruct (run_epochs_prefix s n (S n) st) as [[s0 t] Hn]; [lia | done |].
    rewrite run_epochs_S, Hn in Hrun. cbn in Hrun. destruct st as [s' t'].
    apply train_epoch_effect in Hrun as (s1 & ta & va & _ & He).
    destruct (effect_train_dataiter _ _ _ _ _ _ He) as (it1 & _ & ?).
    destruct (effect_test_dataiter _ _ _ _ _ _ He) as (it2 & _ & ?). eauto.
Qed.

(** X18. Line 263 makes [best_params] and [model.params] one dict. A
    [train] that starts in that state (a second call, without [_reset])
    and in which no validation accuracy exceeds the [best_val_acc] it
    started with keeps that threshold, and leaves in the model the
    parameters of its last epoch: line 263 then restores nothing. *)
Theorem retrain_without_improvement s s' vas :
  best_params s = model_dict → train s = Ok s' →
  val_acc_history s' = val_acc_history s ++ vas →
  Forall (λ a, a ≤ best_val_acc s) vas →
  ∃ st, run_epochs (num_epochs s) s = Ok st ∧
    best_val_acc s' = best_val_acc s ∧ best_params s' = model_dict ∧
    params (model s') = params (model st.1) ∧ store s' = store st.1.
Proof.
  intros Hbp (st & Hrun & ->)%train_inv Hvas Hall. exists st. split; [done|].
  change (val_acc_history (swap_best st.1)) with (val_acc_history st.1) in Hvas.
  eapply (run_epochs_ind (λ n s0, ∃ vas0,
    val_acc_history s0 = val_acc_history s ++ vas0 ∧
    (Forall (λ a, a ≤ best_val_acc s) vas0 →
     best_val_acc s0 = best_val_acc s ∧ best_params s0 = model_dict))) in Hrun as [Hrun _].
  - destruct Hrun as (vas0 & Hvas0 & Hrun). rewrite Hvas in Hvas0.
    apply app_inv_head in Hvas0 as <-. destruct (Hrun Hall) as [Hb Hp].
    unfold swap_best, best_params_dict. simpl_solver. by rewrite Hp.
  - exists []. by rewrite app_nil_r.
  - clear. intros n s0 t s1 s' t' ta va _ _ _ (vas0 & Hv & IH) _ He.
    exists (vas0 ++ [va]).
    rewrite (effect_val_acc_history _ _ _ _ _ _ He), (effect_best_val_acc _ _ _ _ _ _ He),
      (effect_best_params _ _ _ _ _ _ He), Hv, <-app_assoc.
    split; [done|]. intros [Hall Hva]%Forall_app. rewrite Forall_singleton in Hva.
    destruct (IH Hall) as [Hb Hp]. rewrite Hb, Hp.
    rewrite bool_decide_eq_false_2; [done|]. by apply Qcle_not_lt.
Qed.

End bookkeeping.

(** ** The epoch that [train] restores *)

Section best_epoch.

Context {tensor X shape I : Type} `{DataIter I X} `{Env tensor X shape}.
Implicit Types s : @Solver tensor shape I.

(** X19. After a [train] on a solver as [_reset] left it that has seen a
    positive validation accuracy, [best_val_acc] is the greatest accuracy
    of [val_acc_history], and [model.params] is the dict of arrays that
    it was at the end of the first epoch [k] that reached it. With an
    update rule that writes into no array it is given, the values of the
    parameters are those of the end of epoch [k] as well. *)
Theorem train_restores_first_best_epoch s s' :
  after_reset s → train s = Ok s' → 0 < best_val_acc s' →
  ∃ k st, (k < num_epochs s)%nat ∧ run_epochs (S k) s = Ok st ∧
    val_acc_history s' !! k = Some (best_val_acc s') ∧
    (∀ j a, (j < k)%nat → val_acc_history s' !! j = Some a → a < best_val_acc s') ∧
    (∀ a, a ∈ val_acc_history s' → a ≤ best_val_acc s') ∧
    params (model s') = params (model st.1) ∧
    (params_allocated s → allocating (update_rule s) →
       params_values s' = params_values st.1).
Proof.
  intros (_ & Hbest & Hparams & _ & _ & Hhist & _) (st & Hrun & ->)%train_inv Hpos.
  change (best_val_acc (swap_best st.1)) with (best_val_acc st.1) in *.
  change (val_acc_history (swap_best st.1)) with (val_acc_history st.1).
  eapply (run_epochs_ind (λ n s0,
    length (val_acc_history s0) = n ∧
    (∀ a, a ∈ val_acc_history s0 → a ≤ best_val_acc s0) ∧
    (params_allocated s → allocating (update_rule s) → params_allocated s0) ∧
    ((best_val_acc s0 = 0 ∧ best_params s0 = own_dict ∅) ∨
     ∃ k st, (k < n)%nat ∧ run_epochs (S k) s = Ok st ∧
       val_acc_history s0 !! k = Some (best_val_acc s0) ∧
       (∀ j a, (j < k)%nat → val_acc_history s0 !! j = Some a → a < best_val_acc s0) ∧
       best_params s0 = own_dict (params (model st.1)) ∧
       (params_allocated s → allocating (update_rule s) →
          params_allocated st.1 ∧ store st.1 `prefix_of` store s0)))) in Hrun
    as [(_ & Hub & _ & Hrun) _].
  - destruct Hrun as [[H0' _]|(k & stk & Hk & Hrunk & Hacc & Hfirst & Hbp & Hvals)].
    + rewrite H0' in Hpos. by apply Qclt_not_eq in Hpos.
    + exists k, stk. unfold params_values, swap_best, best_params_dict. simpl_solver.
      rewrite Hbp. split_and!; [done..|].
      intros Halloc Hrule. destruct (Hvals Halloc Hrule). by apply values_in_prefix.
  - rewrite Hhist, Hbest. split_and!; [done | by intros ? ?%elem_of_nil | done | by left].
  - clear. intros n s0 t s1 s2 t' ta va _ Hrun' Hsetup (Hlen & Hub & Hwf & IH) Hb He.
    assert (params_allocated s → allocating (update_rule s) →
            store s0 `prefix_of` store s2 ∧ params_allocated s2) as Hgrow.
    { intros Halloc Hrule.
      apply train_batches_store in Hb as (_ & Hpre & Hwf1);
        [|simpl_solver; by rewrite (same_update_rule _ _ Hsetup)].
      unfold params_allocated.
      rewrite (effect_store _ _ _ _ _ _ He), (effect_params _ _ _ _ _ _ He).
      split; [done|]. by apply Hwf1, Hwf. }
    rewrite (effect_val_acc_history _ _ _ _ _ _ He), (effect_best_val_acc _ _ _ _ _ _ He),
      (effect_best_params _ _ _ _ _ _ He).
    split_and!.
    + rewrite length_app. cbn. lia.
    + intros a [Ha| ->%list_elem_of_singleton]%elem_of_app.
      * case_bool_decide as Hlt; [|by apply Hub].
        eapply Qcle_trans; [by apply Hub | by apply Qclt_le_weak].
      * case_bool_decide as Hlt; [apply Qcle_refl | by apply Qcnot_lt_le].
    + intros Halloc Hrule. by apply Hgrow.
    + case_bool_decide as Hlt.
      * right. exists n, (s2, t'). cbn [fst]. split_and!; [lia | done | | | |].
        -- by rewrite lookup_app_r, Hlen, Nat.sub_diag by lia.
        -- intros j a Hj Ha. rewrite lookup_app_l in Ha by lia.
           eapply Qcle_lt_trans; [|done]. apply Hub. by eapply list_elem_of_lookup_2.
        -- by rewrite (effect_params _ _ _ _ _ _ He).
        -- intros Halloc Hrule. split; [by apply Hgrow | done].
      * destruct IH as [?|(k & stk & Hk & Hrunk & Hacc & Hfirst & Hbp & Hvals)]; [by left|].
        right. exists k, stk. split_and!; [lia | done | | | done |].
        -- by rewrite lookup_app_l by lia.
        -- intros j a Hj Ha. rewrite lookup_app_l in Ha by lia. by eapply Hfirst.
        -- intros Halloc Hrule. destruct (Hvals Halloc Hrule) as [? ?].
           split; [done|]. etrans; [done|]. by apply Hgrow.
Qed.

End best_epoch.

(** ** The scenarios *)

Lemma one_param_solver_constructed rule val_label epochs verbose s :
  one_param_solver rule val_label epochs verbose = Ok s →
  after_reset s ∧ optim rule = Some (update_rule s).
Proof.
  unfold one_param_solver. intros Hs. inv_result Hs.
  destruct (constructed _ _ _ _ _ _ _ _ E Hs) as (? & u & Hu & ?). split; [done|].
  vm_compute in Hu. by injection Hu as <-.
Qed.

Lemma two_param_solver_constructed s :
  two_param_solver = Ok s → after_reset s ∧ update_rule s = sgd.
Proof.
  unfold two_param_solver. intros Hs. inv_result Hs.
  destruct (constructed _ _ _ _ _ _ _ _ E Hs) as (? & u & Hu & Hf). split; [done|].
  vm_compute in Hu. injection Hu as <-.
  change (Some sgd = Some (update_rule s)) in Hf. congruence.
Qed.

Lemma sgd_copy_allocating : allocating sgd_copy.
Proof.
  intros h w dw c. unfold sgd_copy. cbn. split.
  - by apply prefix_app_r.
  - rewrite length_app. cbn. lia.
Qed.

Lemma sgd_keeps_learning_rate h w dw (c : config) lr :
  c !! "learning_rate" = Some lr → (sgd h w dw c).2 !! "learning_rate" = Some lr.
Proof. intros Hc. unfold sgd. cbn. by rewrite Hc, lookup_insert_eq. Qed.

Lemma chunks_fuel_length {A : Type} (fuel n : nat) (l c : list A) :
  c ∈ chunks_fuel fuel n l → (length c ≤ n)%nat.
Proof.
  revert l. induction fuel as [|fuel IH]; intros l; cbn; [by intros ?%elem_of_nil|].
  destruct l as [|x l]; [by intros ?%elem_of_nil|].
  intros [->|Hc]%elem_of_cons; [|by eapply IH].
  rewrite length_take. lia.
Qed.

#[global] Instance NDArrayIter_spec {A : Type} : DataIterSpec (NDArrayIter A) (list A).
Proof.
  split.
  - done.
  - done.
  - done.
  - intros it b. cbn. intros Hb%subseteq_drop. unfold batches in Hb.
    apply list_elem_of_fmap in Hb as (c & -> & Hc). cbn. rewrite length_fmap.
    unfold chunks in Hc. destruct (iter_batch_size it) eqn:Hn; [by apply elem_of_nil in Hc|].
    by apply chunks_fuel_length in Hc.
Qed.

(** The model returns one row of scores for every example of a batch,
    and the batches of the iterator have one label for every example. *)
Lemma toy_rows_match_labels (ps : gmap string Qc) (it : NDArrayIter nat) b :
  b ∈ (for_each it).1 → length (forward ps (data b)) = length (label b).
Proof.
  cbn. intros Hb%subseteq_drop. unfold batches in Hb.
  apply list_elem_of_fmap in Hb as (c & -> & _). cbn.
  unfold toy_forward. by rewrite !length_fmap.
Qed.

Lemma toy_rows_not_empty (ps : gmap string Qc) (xs : list nat) :
  Forall (λ row, row ≠ []) (forward ps xs).
Proof. cbn. unfold toy_forward. apply Forall_fmap, Forall_true. done. Qed.

Lemma constant_creating : creating constant.
Proof.
  intros h sh c. unfold constant. cbn. split; [by apply prefix_app_r|].
  rewrite length_app. cbn. lia.
Qed.

(** C1. With the rule [sgd], which works in place, and validation
    accuracies [1] then [0], epoch 0 is the best epoch and ends with
    [w = 1]; yet [train] leaves the model with [w = 0], the value of the
    last epoch: the snapshot refers to the array that epoch 1 wrote into. *)
Theorem train_returns_mutated_snapshot :
  ∃ s st1 s', one_param_solver "sgd" 1 2 false = Ok s ∧
    run_epochs 1 s = Ok st1 ∧ train s = Ok s' ∧
    val_acc_history s' = [1; 0] ∧ best_val_acc s' = 1 ∧
    params_values st1.1 = {["w" := 1]} ∧
    params_values s' = {["w" := 0]}.
Proof.
  assert (holds (one_param_solver "sgd" 1 2 false) (λ s,
    holds (run_epochs 1 s) (λ st1, holds (train s) (λ s',
      bool_decide (val_acc_history s' = [1; 0] ∧ best_val_acc s' = 1 ∧
                   params_values st1.1 = {["w" := 1]} ∧
                   params_values s' = {["w" := 0]})))) = true) as Hrun
    by (vm_compute; reflexivity).
  apply holds_Ok in Hrun as (s & Hs & Hrun). apply holds_Ok in Hrun as (st1 & Hst1 & Hrun).
  apply holds_Ok in Hrun as (s' & Hs' & Hrun). apply bool_decide_eq_true_1 in Hrun.
  exists s, st1, s'. exact (conj Hs (conj Hst1 (conj Hs' Hrun))).
Qed.

(** The same run with [sgd_copy], which returns new arrays: the model is
    left with the value of the best epoch. *)
Example train_keeps_snapshot_of_new_arrays :
  ∃ s st1 s', one_param_solver "sgd_copy" 1 2 false = Ok s ∧
    run_epochs 1 s = Ok st1 ∧ train s = Ok s' ∧
    val_acc_history s' = [1; 0] ∧ best_val_acc s' = 1 ∧
    params_values st1.1 = {["w" := 1]} ∧
    params_values s' = {["w" := 1]}.
Proof.
  assert (holds (one_param_solver "sgd_copy" 1 2 false) (λ s,
    holds (run_epochs 1 s) (λ st1, holds (train s) (λ s',
      bool_decide (val_acc_history s' = [1; 0] ∧ best_val_acc s' = 1 ∧
                   params_values st1.1 = {["w" := 1]} ∧
                   params_values s' = {["w" := 1]})))) = true) as Hrun
    by (vm_compute; reflexivity).
  apply holds_Ok in Hrun as (s & Hs & Hrun). apply holds_Ok in Hrun as (st1 & Hst1 & Hrun).
  apply holds_Ok in Hrun as (s' & Hs' & Hrun). apply bool_decide_eq_true_1 in Hrun.
  exists s, st1, s'. exact (conj Hs (conj Hst1 (conj Hs' Hrun))).
Qed.

(** C4. The snapshot taken at the end of epoch 0 holds the addresses that
    [model.params] holds, not copies: epoch 1, which does not replace the
    snapshot, changes the value seen through it from [1] to [0]. *)
Theorem snapshot_shares_arrays :
  ∃ s st1 st2, one_param_solver "sgd" 1 2 false = Ok s ∧
    run_epochs 1 s = Ok st1 ∧ run_epochs 2 s = Ok st2 ∧
    best_params st1.1 = own_dict (params (model st1.1)) ∧
    values_in (store st1.1) (params (model st1.1)) = {["w" := 1]} ∧
    best_params st2.1 = best_params st1.1 ∧
    values_in (store st2.1) (params (model st1.1)) = {["w" := 0]}.
Proof.
  assert (holds (one_param_solver "sgd" 1 2 false) (λ s,
    holds (run_epochs 1 s) (λ st1, holds (run_epochs 2 s) (λ st2,
      bool_decide (best_params st1.1 = own_dict (params (model st1.1)) ∧
                   values_in (store st1.1) (params (model st1.1)) = {["w" := 1]} ∧
                   best_params st2.1 = best_params st1.1 ∧
                   values_in (store st2.1) (params (model st1.1)) = {["w" := 0]})))) = true)
    as Hrun by (vm_compute; reflexivity).
  apply holds_Ok in Hrun as (s & Hs & Hrun). apply holds_Ok in Hrun as (st1 & Hst1 & Hrun).
  apply holds_Ok in Hrun as (st2 & Hst2 & Hrun). apply bool_decide_eq_true_1 in Hrun.
  exists s, st1, st2. exact (conj Hs (conj Hst1 (conj Hst2 Hrun))).
Qed.

(** Why the scenarios train on 1001 examples: with at most 1000 of them
    line 233 evaluates over the training iterator itself, which the steps
    of the epoch have exhausted, and line 205 divides by zero. *)
Example small_training_set_raises :
  ∃ s, small_train_solver = Ok s ∧ train s = Raise ZeroDivisionError.
Proof.
  assert (holds small_train_solver (λ s,
    match train s with Raise ZeroDivisionError => true | _ => false end) = true) as Hrun
    by (vm_compute; reflexivity).
  apply holds_Ok in Hrun as (s & Hs & Hrun). exists s. split; [done|].
  by repeat case_match.
Qed.

(** The boundary of line 251: a single epoch whose validation accuracy
    is exactly [0] takes no snapshot. *)
Example zero_accuracy_takes_no_snapshot :
  ∃ s st, one_param_solver "sgd" 2 1 false = Ok s ∧ run_epochs 1 s = Ok st ∧
    val_acc_history st.1 = [Q2Qc (0 # 2)] ∧ best_val_acc st.1 = 0 ∧
    best_params st.1 = own_dict ∅.
Proof.
  assert (holds (one_param_solver "sgd" 2 1 false) (λ s, holds (run_epochs 1 s) (λ st,
    bool_decide (val_acc_history st.1 = [Q2Qc (0 # 2)] ∧ best_val_acc st.1 = 0 ∧
                 best_params st.1 = own_dict ∅))) = true) as Hrun
    by (vm_compute; reflexivity).
  apply holds_Ok in Hrun as (s & Hs & Hrun). apply holds_Ok in Hrun as (st & Hst & Hrun).
  apply bool_decide_eq_true_1 in Hrun. exists s, st. exact (conj Hs (conj Hst Hrun)).
Qed.

(** The scenario of section 8 for C2: two parameters, learning rate
    [0.1], decay [0.5], three epochs; both learning rates end at [0.0125]. *)
Lemma learning_rate_scenario :
  ∃ s s', two_param_solver = Ok s ∧ train s = Ok s' ∧
    dom (optim_configs s') = {["w"; "b"]} ∧
    map_Forall (λ _ c, c !! "learning_rate" = Some (Q2Qc 0.0125)) (optim_configs s').
Proof.
  assert (holds two_param_solver (λ s, holds (train s) (λ s',
    bool_decide (lr_decay s = Q2Qc 0.5 ∧ num_epochs s = 3%nat ∧
      dom (optim_configs s) = {["w"; "b"]} ∧
      map_Forall (λ _ c, c !! "learning_rate" = Some (Q2Qc 0.1)) (optim_configs s))))
    = true) as Hrun by (vm_compute; reflexivity).
  apply holds_Ok in Hrun as (s & Hs & Hrun). apply holds_Ok in Hrun as (s' & Hs' & Hrun).
  apply bool_decide_eq_true_1 in Hrun as (Hd & Hn & Hdom & Hlr).
  destruct (two_param_solver_constructed s Hs) as [_ Hrule].
  exists s, s'. split; [done|]. split; [done|].
  destruct (learning_rate_after_epochs s (Q2Qc 0.1)) as [_ Htrain].
  - rewrite Hrule. apply sgd_keeps_learning_rate.
  - done.
  - destruct (Htrain s' Hs') as [Hdom' Hlr']. rewrite Hd, Hn in Hlr'.
    replace (Q2Qc 0.1 * Q2Qc 0.5 ^ 3) with (Q2Qc 0.0125) in Hlr'
      by (apply Qc_is_canon; reflexivity).
    split; [congruence | done].
Defined.

(** C3 on the run with validation accuracies [1] then [0]. *)
Lemma best_val_acc_running_maximum_witness :
  ∃ s st1 st2, one_param_solver "sgd" 1 2 false = Ok s ∧
    run_epochs 1 s = Ok st1 ∧ run_epochs 2 s = Ok st2 ∧
    best_val_acc st1.1 ≤ best_val_acc st2.1 ∧
    ∃ accs, val_acc_history st2.1 = val_acc_history s ++ accs ∧ length accs = 2%nat ∧
      (∀ a, a ∈ 0 :: accs → a ≤ best_val_acc st2.1) ∧ best_val_acc st2.1 ∈ 0 :: accs.
Proof.
  assert (holds (one_param_solver "sgd" 1 2 false) (λ s,
    holds (run_epochs 1 s) (λ st1, holds (run_epochs 2 s) (λ st2,
      bool_decide (best_val_acc s = 0)))) = true) as Hrun by (vm_compute; reflexivity).
  apply holds_Ok in Hrun as (s & Hs & Hrun). apply holds_Ok in Hrun as (st1 & Hst1 & Hrun).
  apply holds_Ok in Hrun as (st2 & Hst2 & Hrun). apply bool_decide_eq_true_1 in Hrun.
  exists s, st1, st2. do 3 (split; [done|]).
  apply (best_val_acc_running_maximum s 1 2 st1 st2); [done | lia | done | done].
Defined.

(** C5 on a run whose validation accuracy is [0] in both epochs: the
    parameter [w] is lost. *)
Lemma train_without_improvement_witness :
  ∃ s s', one_param_solver "sgd" 2 2 false = Ok s ∧ train s = Ok s' ∧
    params_values s = {["w" := 2]} ∧ params (model s') = ∅ ∧ params_values s' = ∅.
Proof.
  assert (holds (one_param_solver "sgd" 2 2 false) (λ s, holds (train s) (λ s',
    bool_decide (params_values s = {["w" := 2]} ∧
                 Forall (λ a, ¬ 0 < a) (val_acc_history s')))) = true) as Hrun
    by (vm_compute; reflexivity).
  apply holds_Ok in Hrun as (s & Hs & Hrun). apply holds_Ok in Hrun as (s' & Hs' & Hrun).
  apply bool_decide_eq_true_1 in Hrun as [Hw Hacc].
  destruct (one_param_solver_constructed _ _ _ _ _ Hs) as [Hreset _].
  exists s, s'. do 3 (split; [done|]).
  by apply (train_without_improvement_empties_params s s').
Defined.

(** C6 on a run of two epochs of one batch each. *)
Lemma loss_history_length_witness :
  ∃ s s', one_param_solver "sgd" 1 2 false = Ok s ∧ train s = Ok s' ∧
    length (loss_history s') = 2%nat.
Proof.
  assert (holds (one_param_solver "sgd" 1 2 false) (λ s, holds (train s) (λ s',
    bool_decide (num_epochs s = 2%nat ∧ getnumiterations (train_dataiter s) = 1%nat)))
    = true) as Hrun by (vm_compute; reflexivity).
  apply holds_Ok in Hrun as (s & Hs & Hrun). apply holds_Ok in Hrun as (s' & Hs' & Hrun).
  apply bool_decide_eq_true_1 in Hrun as [Hn Hit].
  destruct (one_param_solver_constructed _ _ _ _ _ Hs) as [Hreset _].
  exists s, s'. do 2 (split; [done|]).
  destruct (loss_history_length s s' Hreset Hs') as [_ Hlen]. by rewrite Hlen, Hn, Hit.
Defined.

(** C7 on the scenario of section 8, [num_samples = 1000] on 200 examples,
    where the accuracy is that over all 200 of them, and on 1001 examples. *)
Lemma check_accuracy_subsampling_witness :
  ∃ s, one_param_solver "sgd" 1 2 false = Ok s ∧
    check_accuracy s iter_200 (Some 1000%nat) 100 = accuracy_over s iter_200 ∧
    fst <$> check_accuracy s iter_200 (Some 1000%nat) 100 = Ok (Q2Qc (150 # 200)) ∧
    check_accuracy s (train_dataiter s) (Some 1000%nat) 100 =
      (λ r, (r.1, train_dataiter s)) <$> accuracy_over s (getsubiter (train_dataiter s) 1000).
Proof.
  assert (holds (one_param_solver "sgd" 1 2 false) (λ s,
    bool_decide (num_data (train_dataiter s) = 1001%nat ∧
      fst <$> check_accuracy s iter_200 (Some 1000%nat) 100 = Ok (Q2Qc (150 # 200))))
    = true) as Hrun by (vm_compute; reflexivity).
  apply holds_Ok in Hrun as (s & Hs & Hrun).
  apply bool_decide_eq_true_1 in Hrun as [Hn Hacc].
  exists s. split; [done|]. split_and!.
  - apply (check_accuracy_subsampling s iter_200 (Some 1000%nat) 100).
    right. exists 1000%nat. split; [done|]. refine (bool_decide_unpack _ _). vm_compute. exact I.
  - done.
  - apply (check_accuracy_subsampling s (train_dataiter s) (Some 1000%nat) 100); [done|].
    rewrite Hn. lia.
Defined.

(** C8 on the scenario of section 8, 100 examples in batches of 10 with
    all labels and all predictions [0], where the accuracy is exactly [1];
    and on 200 examples in batches of 50, of which 150 have the label [1],
    with a model whose second score is the greater: the accuracy is
    [150/200]. *)
Lemma accuracy_over_value_witness :
  ∃ s0 s acc, untrained_solver = Ok s0 ∧
    accuracy_over s0 iter_100 = Ok (1, (for_each iter_100).2) ∧
    one_param_solver "sgd" 1 2 false = Ok s ∧
    accuracy_over s iter_200 = Ok (acc, (for_each iter_200).2) ∧
    acc = Q2Qc (150 # 200) ∧ 0 ≤ acc ≤ 1.
Proof.
  assert (holds untrained_solver (λ s0, holds (one_param_solver "sgd" 1 2 false) (λ s,
    bool_decide (fst <$> accuracy_over s0 iter_100 = Ok 1 ∧
                 fst <$> accuracy_over s iter_200 = Ok (Q2Qc (150 # 200))))) = true) as Hrun
    by (vm_compute; reflexivity).
  apply holds_Ok in Hrun as (s0 & Hs0 & Hrun). apply holds_Ok in Hrun as (s & Hs & Hrun).
  apply bool_decide_eq_true_1 in Hrun as [H100 H200].
  assert (∀ s1 (it : NDArrayIter nat), (for_each it).1 ≠ [] → (0 < dataiter_batch_size it)%nat →
    ∃ acc, accuracy_over s1 it = Ok (acc, (for_each it).2) ∧ 0 ≤ acc ≤ 1) as Hover.
  { intros s1 it Hne Hbs.
    destruct (accuracy_over_value s1 it (for_each it).1 (for_each it).2)
      as (acc & Hacc & _ & _ & Hrange); [by destruct (for_each it) | done | done | ..].
    - intros b _. apply toy_rows_not_empty.
    - intros b Hb. by apply (toy_rows_match_labels _ it).
    - by exists acc. }
  destruct (Hover s0 iter_100) as (acc0 & Hacc0 & _);
    [intros Hnil; vm_compute in Hnil; discriminate Hnil | cbn; lia |].
  destruct (Hover s iter_200) as (acc & Hacc & Hrange);
    [intros Hnil; vm_compute in Hnil; discriminate Hnil | cbn; lia |].
  rewrite Hacc0 in H100. rewrite Hacc in H200. cbn in H100, H200. simplify_eq.
  exists s0, s, (Q2Qc (150 # 200)). split_and!; done.
Defined.

(** C9 as stated fails: with an unrecognized keyword next to an
    [update_rule] name that does not resolve, [__init__] fails with
    [UnrecognizedOption], not with [UnknownRule]. *)
Lemma unknown_rule_behind_unrecognized_option :
  let kwargs : gmap string kwval :=
    {["update_rule" := KStr "adagrad"; "momentum" := KFloat 1]} in
  rule_name "update_rule" "sgd" kwargs = Some "adagrad" ∧
  optim (tensor := Qc) (X := list nat) (shape := unit) "adagrad" = None ∧
  ∃ e, __init__ [] [] (mkModel ∅ ∅) iter_100 iter_100 kwargs = Raise e ∧
       UnrecognizedOption e ∧ ¬ UnknownRule e.
Proof.
  cbn zeta. split; [by vm_compute|]. split; [done|].
  exists (ValueError (Unrecognized_arguments ["momentum"])).
  split; [vm_compute; reflexivity|]. split; [by eexists|].
  intros [name [?|?]]; discriminate.
Qed.

(** C9, amended, on an unrecognized keyword and on an unknown rule. *)
Lemma construction_errors_witness :
  (∃ e, __init__ (tensor := Qc) [] [] (mkModel ∅ ∅) iter_100 iter_100
          {["momentum" := KFloat 1]} = Raise e ∧ UnrecognizedOption e) ∧
  (∃ e, __init__ (tensor := Qc) [] [] (mkModel ∅ ∅) iter_100 iter_100
          {["update_rule" := KStr "adagrad"]} = Raise e ∧ UnknownRule e).
Proof.
  split.
  - apply (construction_errors (tensor := Qc)). exists "momentum". split.
    + rewrite lookup_singleton_eq. by eexists.
    + refine (bool_decide_unpack _ _). vm_compute. exact I.
  - apply (construction_errors (tensor := Qc) [] [] (mkModel ∅ ∅) iter_100 iter_100
             {["update_rule" := KStr "adagrad"]}) with (u := "adagrad") (i := "xavier").
    + intros k [v [<- _]%lookup_singleton_Some]. refine (bool_decide_unpack _ _). vm_compute. exact I.
    + vm_compute. reflexivity.
    + vm_compute. reflexivity.
    + left. reflexivity.
Defined.

(** C10 on a verbose run of two epochs: the epoch headers count [0], [1]
    while both summaries report epoch [0]. *)
Lemma epoch_is_never_assigned_witness :
  ∃ s s' out, one_param_solver "sgd" 1 2 true = Ok s ∧ train s = Ok s' ∧
    epoch s' = 0%nat ∧ stdout s' = stdout s ++ out ∧
    summary_epochs out = [0; 0]%nat ∧ print_epoch 1 ∈ out.
Proof.
  assert (holds (one_param_solver "sgd" 1 2 true) (λ s, holds (train s) (λ s',
    bool_decide (epoch s = 0%nat ∧ verbose s = true ∧ num_epochs s = 2%nat ∧
                 stdout s = [] ∧ print_epoch 1 ∈ stdout s'))) = true) as Hrun
    by (vm_compute; reflexivity).
  apply holds_Ok in Hrun as (s & Hs & Hrun). apply holds_Ok in Hrun as (s' & Hs' & Hrun).
  apply bool_decide_eq_true_1 in Hrun as (He & Hv & Hn & Hout & Hin).
  destruct (epoch_is_never_assigned s) as (_ & _ & _ & _ & Htrain).
  destruct (Htrain s' Hs') as (He' & out & Hout' & Hsum).
  exists s, s', out. rewrite He, Hv, Hn in *. split_and!; try done.
  by rewrite Hout', Hout in Hin.
Defined.

(** ** The further properties on the scenarios *)

(** X1 on a construction without keyword arguments: the defaults. *)
Lemma __init___options_witness :
  ∃ s, untrained_solver = Ok s ∧
    init_config s = ∅ ∧ optim_config s = ∅ ∧ lr_decay s = 1 ∧ batch_size s = 100%nat ∧
    num_epochs s = 10%nat ∧ print_every s = 10%nat ∧ verbose s = true ∧
    params (model s) = ∅ ∧ optim_configs s = {["w" := ∅]}.
Proof.
  assert (holds untrained_solver (λ _, true) = true) as Hrun by (vm_compute; reflexivity).
  apply holds_Ok in Hrun as (s & Hs & _). exists s. split; [done|].
  destruct (__init___options _ _ _ _ _ _ _ Hs)
    as (_ & Hm & _ & _ & _ & Hic & Hoc & Hd & Hb & Hn & Hp & Hv & Hocs & _).
  rewrite lookup_empty in Hic, Hoc, Hd, Hb, Hn, Hp, Hv. cbn in Hic, Hoc, Hd, Hb, Hn, Hp, Hv.
  simplify_eq. rewrite Hocs, Hm, <-Hoc. cbn [params param_configs].
  split_and!; [done..|]. by rewrite map_fmap_singleton.
Defined.

(** X2 on two keywords that are not options. *)
Lemma unrecognized_arguments_listed_witness :
  ∃ extra, __init__ (tensor := Qc) [] [] (mkModel ∅ ∅) iter_100 iter_100
             {["momentum" := KFloat 1; "nesterov" := KBool true; "verbose" := KBool false]}
           = Raise (ValueError (Unrecognized_arguments extra)) ∧
    NoDup extra ∧ "momentum" ∈ extra ∧ "nesterov" ∈ extra ∧ "verbose" ∉ extra.
Proof.
  exists ["momentum"; "nesterov"].
  assert (__init__ (tensor := Qc) [] [] (mkModel ∅ ∅) iter_100 iter_100
            {["momentum" := KFloat 1; "nesterov" := KBool true; "verbose" := KBool false]}
          = Raise (ValueError (Unrecognized_arguments ["momentum"; "nesterov"]))) as Hraise
    by (vm_compute; reflexivity).
  split; [exact Hraise|].
  destruct (unrecognized_arguments_listed (tensor := Qc) _ _ _ _ _ _ _ Hraise)
    as (_ & Hnd & Hin).
  split; [exact Hnd|]. split_and!.
  - by left.
  - right. by left.
  - rewrite Hin. intros [_ Hnot]. apply Hnot.
    refine (bool_decide_unpack _ _). vm_compute. exact I.
Defined.

(** X3 on an unknown update rule next to an unknown initializer. *)
Lemma rules_resolved_in_order_witness :
  __init__ (tensor := Qc) [] [] (mkModel ∅ ∅) iter_100 iter_100
    {["update_rule" := KStr "adagrad"; "init_rule" := KStr "bogus"]}
  = Raise (ValueError (Invalid_update_rule "adagrad")).
Proof.
  apply (rules_resolved_in_order (tensor := Qc)).
  - intros k [v Hv]. refine (bool_decide_unpack _ _).
    apply lookup_insert_Some in Hv as [[<- _]|[_ [<- _]%lookup_singleton_Some]];
      vm_compute; exact I.
  - vm_compute. reflexivity.
  - reflexivity.
Defined.

(** X4 on the model with the parameter [w] and the initializer
    [constant]: [init] gives [w] a new array. *)
Lemma init_binds_new_arrays_witness :
  ∃ s s' a, untrained_solver = Ok s ∧ init s = Ok s' ∧
    store s `prefix_of` store s' ∧ params (model s') !! "w" = Some a ∧
    (length (store s) ≤ a)%nat ∧ is_Some (params_values s' !! "w").
Proof.
  assert (holds untrained_solver (λ s,
    bool_decide (param_configs (model s) = {["w" := ()]} ∧ init_configs s !! "w" = Some ∅))
    = true) as Hrun by (vm_compute; reflexivity).
  apply holds_Ok in Hrun as (s & Hs & (Hpc & Hic)%bool_decide_eq_true_1).
  destruct (__init___rules _ _ _ _ _ _ _ Hs) as (u & i & _ & Hi & _ & Hinit).
  vm_compute in Hi. injection Hi as <-.
  change (Some constant = Some (init_rule s)) in Hinit. injection Hinit as Hinit.
  destruct (init_binds_new_arrays s) as (s' & Hs' & Hpre & _ & Hin & _).
  { intros name. rewrite Hpc. intros [? [<- _]%lookup_singleton_Some]. by rewrite Hic. }
  { rewrite <-Hinit. apply constant_creating. }
  destruct (Hin "w" ()) as (c & h & a & _ & _ & _ & Ha & Hle & Hsome & _); [by rewrite Hpc|].
  by exists s, s', a.
Defined.

(** X5 on a parameter without initializer config. *)
Lemma init_without_config_raises_witness :
  init late_param_solver = Raise (KeyError "w").
Proof.
  destruct (init_without_config_raises late_param_solver "w") as (k & Hk & [sh Hsh] & _).
  - by eexists.
  - done.
  - rewrite Hk. cbn in Hsh. apply lookup_singleton_Some in Hsh as [<- _]. done.
Defined.

(** X6 on a step of the in-place rule. *)
Lemma _step_changes_witness :
  ∃ s s', one_param_solver "sgd" 1 2 false = Ok s ∧ _step s two_examples = Ok s' ∧
    length (loss_history s') = S (length (loss_history s)) ∧
    dom (params (model s')) = dom (params (model s)) ∧ stdout s' = stdout s ∧
    params_values s = {["w" := 2]} ∧ params_values s' = {["w" := 1]}.
Proof.
  assert (holds (one_param_solver "sgd" 1 2 false) (λ s, holds (_step s two_examples) (λ s',
    bool_decide (params_values s = {["w" := 2]} ∧ params_values s' = {["w" := 1]}))) = true)
    as Hrun by (vm_compute; reflexivity).
  apply holds_Ok in Hrun as (s & Hs & Hrun). apply holds_Ok in Hrun as (s' & Hs' & Hrun).
  apply bool_decide_eq_true_1 in Hrun as [Hv Hv'].
  destruct (_step_changes s two_examples s' Hs') as (Heq & Hdom & _).
  exists s, s'. split_and!; [done | done | | done | | done | done].
  - rewrite Heq. simpl_solver. rewrite length_app. cbn. lia.
  - by rewrite Heq.
Defined.

(** X7 on the solver with the parameter [w]: a step returns. *)
Lemma _step_succeeds_witness :
  ∃ s s', one_param_solver "sgd" 1 2 false = Ok s ∧ _step s two_examples = Ok s'.
Proof.
  assert (holds (one_param_solver "sgd" 1 2 false) (λ s,
    bool_decide (map_Forall (λ _ l, (l < length (store s))%nat) (params (model s)) ∧
                 dom (params (model s)) ⊆ dom (optim_configs s))) = true) as Hrun
    by (vm_compute; reflexivity).
  apply holds_Ok in Hrun as (s & Hs & [Halloc Hdom]%bool_decide_eq_true_1).
  destruct (_step_succeeds s two_examples) as [s' Hs'].
  - intros f arrays. cbn. by rewrite length_fmap.
  - exact Halloc.
  - intros p Hp%elem_of_dom. apply elem_of_dom. by apply Hdom.
  - by exists s, s'.
Defined.

(** X8 on an array that [param_configs] does not list. *)
Lemma _step_without_config_raises_witness :
  ∃ s, foreign_param_solver = Ok s ∧ _step s two_examples = Raise (KeyError "w").
Proof.
  assert (holds foreign_param_solver (λ s,
    bool_decide (map_Forall (λ _ l, (l < length (store s))%nat) (params (model s)) ∧
                 params (model s) = {["w" := 0%nat]} ∧ optim_configs s !! "w" = None)) = true)
    as Hrun by (vm_compute; reflexivity).
  apply holds_Ok in Hrun as (s & Hs & (Halloc & Hp & Hnone)%bool_decide_eq_true_1).
  destruct (_step_without_config_raises s two_examples "w") as (k & Hk & [w Hw] & _).
  - intros f arrays. cbn. by rewrite length_fmap.
  - exact Halloc.
  - by rewrite Hp.
  - exact Hnone.
  - exists s. split; [done|]. rewrite Hk.
    rewrite Hp in Hw. by apply lookup_singleton_Some in Hw as [<- _].
Defined.

(** X9 on the scenario of C7: 200 examples, [num_samples = 1000]. *)
Lemma check_accuracy_range_witness :
  ∃ s acc after, one_param_solver "sgd" 1 2 false = Ok s ∧
    check_accuracy s iter_200 (Some 1000%nat) 100 = Ok (acc, after) ∧ 0 ≤ acc ≤ 1.
Proof.
  assert (holds (one_param_solver "sgd" 1 2 false) (λ s,
    holds (check_accuracy s iter_200 (Some 1000%nat) 100) (λ _, true)) = true) as Hrun
    by (vm_compute; reflexivity).
  apply holds_Ok in Hrun as (s & Hs & Hrun). apply holds_Ok in Hrun as ([acc after] & Hacc & _).
  exists s, acc, after. split_and!; [done | done | |];
    apply (check_accuracy_range s iter_200 (Some 1000%nat) 100 acc after);
    first [done | intros it b; apply toy_rows_match_labels].
Defined.

(** X10 on an iterator that is exhausted. *)
Lemma accuracy_over_division_by_zero_witness :
  ∃ s, untrained_solver = Ok s ∧
    accuracy_over s (for_each iter_100).2 = Raise ZeroDivisionError.
Proof.
  assert (holds untrained_solver (λ _, true) = true) as Hrun by (vm_compute; reflexivity).
  apply holds_Ok in Hrun as (s & Hs & _). exists s. split; [done|].
  apply accuracy_over_division_by_zero.
  - intros b _. cbn [forward toy_env]. unfold toy_forward.
    apply Forall_fmap, Forall_true. done.
  - left. vm_compute. reflexivity.
Defined.

(** X11 on a run of two epochs with [verbose] false. *)
Lemma train_prints_epoch_headers_witness :
  ∃ s s', one_param_solver "sgd" 1 2 false = Ok s ∧ train s = Ok s' ∧
    stdout s' = stdout s ++ [print_epoch 0; print_epoch 1].
Proof.
  assert (holds (one_param_solver "sgd" 1 2 false) (λ s, holds (train s) (λ s',
    bool_decide (verbose s = false ∧ num_epochs s = 2%nat))) = true) as Hrun
    by (vm_compute; reflexivity).
  apply holds_Ok in Hrun as (s & Hs & Hrun). apply holds_Ok in Hrun as (s' & Hs' & Hrun).
  apply bool_decide_eq_true_1 in Hrun as [Hv Hn].
  destruct (train_prints_epoch_headers s s' Hs') as (out & Hout & _ & Hquiet).
  exists s, s'. split_and!; [done..|]. by rewrite Hout, (Hquiet Hv), Hn.
Defined.

(** X12 on a verbose run of two epochs of one batch each, with
    [print_every = 10]: the loss of batch [0] is printed, that of batch
    [1] is not. *)
Lemma train_prints_every_nth_loss_witness :
  ∃ s s' l0 l1 out, one_param_solver "sgd" 1 2 true = Ok s ∧ train s = Ok s' ∧
    loss_history s' = loss_history s ++ [l0; l1] ∧ stdout s' = stdout s ++ out ∧
    iteration_lines out = [print_iteration 1 2 l0].
Proof.
  assert (holds (one_param_solver "sgd" 1 2 true) (λ s, holds (train s) (λ s',
    bool_decide (verbose s = true ∧ print_every s = 10%nat ∧ num_epochs s = 2%nat ∧
                 getnumiterations (train_dataiter s) = 1%nat ∧ loss_history s = [] ∧
                 length (loss_history s') = 2%nat))) = true) as Hrun
    by (vm_compute; reflexivity).
  apply holds_Ok in Hrun as (s & Hs & Hrun). apply holds_Ok in Hrun as (s' & Hs' & Hrun).
  apply bool_decide_eq_true_1 in Hrun as (Hv & Hp & Hn & Hit & Hl & Hlen).
  destruct (train_prints_every_nth_loss s s' Hs') as (ls & out & Hls & Hout & Hlines).
  rewrite Hl in Hls. rewrite Hls in Hlen. cbn in Hls, Hlen.
  destruct ls as [|l0 [|l1 [|]]]; try done.
  exists s, s', l0, l1, out. rewrite Hl. split_and!; [done..|].
  by rewrite Hlines, Hv, Hp, Hn, Hit.
Defined.

(** X13 on 200 training examples in one batch: its step succeeds, and
    line 205 divides by zero. *)
Lemma train_on_at_most_1000_examples_witness :
  ∃ s, small_train_solver = Ok s ∧ train s = Raise ZeroDivisionError.
Proof.
  assert (holds small_train_solver (λ s,
    bool_decide (0 < num_epochs s ∧ num_data (for_each (train_dataiter s)).2 ≤ 1000 ∧
                 length (for_each (for_each (train_dataiter s)).2).1 = 0)%nat &&
    holds (foldM (train_batch (getnumiterations (train_dataiter s) * num_epochs s))
             (print (print_epoch 0) s, 0%nat) (for_each (train_dataiter s)).1) (λ _, true))
    = true) as Hrun by (vm_compute; reflexivity).
  apply holds_Ok in Hrun as (s & Hs & [Hfacts Hsteps]%andb_true_iff).
  apply bool_decide_eq_true_1 in Hfacts as (Hn & Hsmall & Hnil).
  apply holds_Ok in Hsteps as (st & Hst & _).
  destruct (train_on_at_most_1000_examples s Hn Hsmall) as (e & He & [->|Hfold]).
  - by apply nil_length_inv.
  - by exists s.
  - rewrite Hst in Hfold. discriminate Hfold.
Defined.

(** X14 on the verbose solver with [print_every = 0]: the first step
    succeeds, and line 226 divides by zero. *)
Lemma train_print_every_zero_witness :
  ∃ s, print_every_zero_solver = Ok s ∧ train s = Raise ZeroDivisionError.
Proof.
  assert (holds print_every_zero_solver (λ s,
    bool_decide (verbose s = true ∧ print_every s = 0 ∧ 0 < num_epochs s)%nat &&
    match (for_each (train_dataiter s)).1 with
    | b :: _ => holds (_step (print (print_epoch 0) s) b) (λ _, true)
    | [] => false
    end) = true) as Hrun by (vm_compute; reflexivity).
  apply holds_Ok in Hrun as (s & Hs & [Hfacts Hstep]%andb_true_iff).
  apply bool_decide_eq_true_1 in Hfacts as (Hv & Hp & Hn).
  destruct (for_each (train_dataiter s)).1 as [|b bs] eqn:Hb; [done|].
  apply holds_Ok in Hstep as (s1 & Hs1 & _).
  destruct (train_print_every_zero s b bs Hv Hp Hn Hb) as (e & He & [->|Hraise]).
  - by exists s.
  - rewrite Hs1 in Hraise. discriminate Hraise.
Defined.

(** X15 on the configs of the scenario of C2, which have a learning rate,
    and on a config that has none. *)
Lemma decay_learning_rates_result_witness :
  (∃ s s', two_param_solver = Ok s ∧ decay_learning_rates s = Ok s' ∧
     optim_configs s' = decayed (lr_decay s) <$> optim_configs s) ∧
  (∃ s, untrained_solver = Ok s ∧
     decay_learning_rates s = Raise (KeyError "learning_rate")).
Proof.
  split.
  - assert (holds two_param_solver (λ s,
      bool_decide (map_Forall (λ _ c, is_Some (c !! "learning_rate")) (optim_configs s)))
      = true) as Hrun by (vm_compute; reflexivity).
    apply holds_Ok in Hrun as (s & Hs & Hlr%bool_decide_eq_true_1).
    destruct (decay_learning_rates_result s) as [Hok _].
    eexists s, _. split_and!; [done | by apply Hok | done].
  - assert (holds untrained_solver (λ s, bool_decide (optim_configs s !! "w" = Some ∅))
      = true) as Hrun by (vm_compute; reflexivity).
    apply holds_Ok in Hrun as (s & Hs & Hw%bool_decide_eq_true_1).
    destruct (decay_learning_rates_result s) as [_ Hraise].
    exists s. split; [done|]. by apply (Hraise "w" ∅).
Defined.

(** X16 on the run with validation accuracies [1] then [0]. *)
Lemma train_records_accuracies_witness :
  ∃ s s' tas vas, one_param_solver "sgd" 1 2 false = Ok s ∧ train s = Ok s' ∧
    train_acc_history s' = tas ∧ val_acc_history s' = vas ∧
    length tas = 2%nat ∧ length vas = 2%nat ∧ Forall (λ a, 0 ≤ a ≤ 1) (tas ++ vas).
Proof.
  assert (holds (one_param_solver "sgd" 1 2 false) (λ s, holds (train s) (λ s',
    bool_decide (num_epochs s = 2%nat ∧ train_acc_history s = [] ∧ val_acc_history s = [])))
    = true) as Hrun by (vm_compute; reflexivity).
  apply holds_Ok in Hrun as (s & Hs & Hrun). apply holds_Ok in Hrun as (s' & Hs' & Hrun).
  apply bool_decide_eq_true_1 in Hrun as (Hn & Ht & Hv).
  destruct (train_records_accuracies s s' toy_rows_match_labels Hs')
    as (tas & vas & Ht' & Hv' & ? & ? & ?).
  exists s, s', tas, vas. rewrite Ht', Hv', Ht, Hv.
  split_and!; [done | done | done | done | congruence | congruence | done].
Defined.

(** X17 on the same run. *)
Lemma train_restarts_iterators_witness :
  ∃ s s', one_param_solver "sgd" 1 2 false = Ok s ∧ train s = Ok s' ∧
    (∃ it, train_dataiter s' = reset it) ∧ (∃ it, test_dataiter s' = reset it).
Proof.
  assert (holds (one_param_solver "sgd" 1 2 false) (λ s, holds (train s) (λ s',
    bool_decide (num_epochs s = 2%nat))) = true) as Hrun by (vm_compute; reflexivity).
  apply holds_Ok in Hrun as (s & Hs & Hrun). apply holds_Ok in Hrun as (s' & Hs' & Hrun).
  apply bool_decide_eq_true_1 in Hrun.
  pose proof (train_restarts_iterators s s' Hs') as Hit.
  rewrite decide_False in Hit by lia. by exists s, s'.
Defined.

(** X18 on a second [train]: the first run ends with [best_val_acc = 1]
    and [w = 0]; the second, whose validation accuracies are [0], leaves
    the model with its last value [w = -2]. *)
Lemma retrain_without_improvement_witness :
  ∃ s s1 s2, one_param_solver "sgd" 1 2 false = Ok s ∧ train s = Ok s1 ∧ train s1 = Ok s2 ∧
    best_val_acc s1 = 1 ∧ params_values s1 = {["w" := 0]} ∧
    best_val_acc s2 = 1 ∧ best_params s2 = model_dict ∧ params_values s2 = {["w" := -2]}.
Proof.
  assert (holds (one_param_solver "sgd" 1 2 false) (λ s, holds (train s) (λ s1,
    holds (train s1) (λ s2,
      bool_decide (best_params s1 = model_dict ∧ best_val_acc s1 = 1 ∧
        params_values s1 = {["w" := 0]} ∧
        val_acc_history s2 = val_acc_history s1 ++ [Q2Qc (0 # 2); Q2Qc (0 # 2)] ∧
        Forall (λ a, a ≤ best_val_acc s1) [Q2Qc (0 # 2); Q2Qc (0 # 2)] ∧
        params_values s2 = {["w" := -2]})))) = true) as Hrun by (vm_compute; reflexivity).
  apply holds_Ok in Hrun as (s & Hs & Hrun). apply holds_Ok in Hrun as (s1 & Hs1 & Hrun).
  apply holds_Ok in Hrun as (s2 & Hs2 & Hrun).
  apply bool_decide_eq_true_1 in Hrun as (Hbp & Hb1 & Hv1 & Hh & Hall & Hv2).
  destruct (retrain_without_improvement s1 s2 _ Hbp Hs2 Hh Hall) as (st & _ & Hb2 & Hbp2 & _).
  exists s, s1, s2. rewrite Hb2. split_and!; done.
Defined.

(** X19 on the run with validation accuracies [1] then [0] and the rule
    [sgd_copy]: epoch [0] is the best, and the model is left with its
    value [w = 1]. *)
Lemma train_restores_first_best_epoch_witness :
  ∃ s st s', one_param_solver "sgd_copy" 1 2 false = Ok s ∧ run_epochs 1 s = Ok st ∧
    train s = Ok s' ∧ val_acc_history s' !! 0%nat = Some (best_val_acc s') ∧
    params_values s' = params_values st.1 ∧ params_values s' = {["w" := 1]}.
Proof.
  assert (holds (one_param_solver "sgd_copy" 1 2 false) (λ s, holds (train s) (λ s',
    bool_decide (0 < best_val_acc s' ∧ val_acc_history s' = [1; 0] ∧
      map_Forall (λ _ l, (l < length (store s))%nat) (params (model s)) ∧
      params_values s' = {["w" := 1]}))) = true) as Hrun by (vm_compute; reflexivity).
  apply holds_Ok in Hrun as (s & Hs & Hrun). apply holds_Ok in Hrun as (s' & Hs' & Hrun).
  apply bool_decide_eq_true_1 in Hrun as (Hpos & Hh & Halloc & Hv).
  destruct (one_param_solver_constructed _ _ _ _ _ Hs) as [Hreset Hrule].
  destruct (train_restores_first_best_epoch s s' Hreset Hs' Hpos)
    as (k & st & Hk & Hst & Hacc & Hfirst & _ & _ & Hvals).
  assert (k = 0%nat) as ->.
  { rewrite Hh in Hacc. destruct k as [|[|k]]; [done| |done].
    injection Hacc as Hacc. rewrite <-Hacc in Hpos. by apply Qclt_not_eq in Hpos. }
  exists s, st, s'. split_and!; [done..| |done].
  apply Hvals; [exact Halloc|].
  change (Some sgd_copy = Some (update_rule s)) in Hrule. injection Hrule as <-.
  apply sgd_copy_allocating.
Defined.
